(** * Lode-Runner style grid engine: a shallow embedding of [loderunner_min.py]

    The simulation core of the program (level parsing, tile grid, dig and
    hole regeneration, gravity, the rule-based enemy chase and the per-tick
    [step]) is transcribed to Rocq functions over an explicit [Game] record.
    Python integers are unbounded, so every coordinate, timer and counter is
    a [Z]; tile identifiers are the integer constants of the source.  The
    in-place mutations of the [Game] object become state passing. *)

From Stdlib Require Import ZArith String Ascii Bool Lia.
From stdpp Require Import base list.

Local Open Scope Z_scope.

(** ** Configuration constants *)

Definition EMPTY : Z := 0.
Definition BRICK : Z := 1.
Definition LADDER : Z := 2.
Definition ROPE : Z := 3.
Definition GOLD : Z := 4.
Definition EXIT : Z := 5.

Definition HOLE_REGEN_FRAMES : Z := 240.
Definition ENEMY_MOVE_INTERVAL : Z := 10.
(** The literal [300] that [reset] stores in [countdown]. *)
Definition START_COUNTDOWN : Z := 300.

Definition LEVEL_STR : list string :=
  [ "####################";
    "#...........G......#";
    "#..====............#";
    "#..=..=.....HHH....#";
    "#..=..=.....H.H....#";
    "#..=..=..G..H.H....#";
    "#..=..=.....H.H....#";
    "#..=..=.....HHH....#";
    "#..=..=............#";
    "#..=..=.....G......#";
    "#..=..=............#";
    "#..=..=......E.....#";
    "#..=..=............#";
    "#..=..=............#";
    "#..=..=............#";
    "#..........P.......#";
    "####################" ]%string.

(** ** Level parsing *)

Record Parsed := mkParsed {
  p_grid : list (list Z);
  p_player_start : Z * Z;
  p_exit_pos : Z * Z;
  p_gold_positions : list (Z * Z)
}.

(** One character of one row: the inner loop body of [parse_level].  The
    state is the row built so far and the three outputs other than the grid
    (player start, exit, gold positions). *)
Definition parse_char (x y : Z) (ch : ascii)
    (st : list Z * ((Z * Z) * (Z * Z) * list (Z * Z)))
    : list Z * ((Z * Z) * (Z * Z) * list (Z * Z)) :=
  let '(r, (pstart, epos, golds)) := st in
  if Ascii.eqb ch "."%char then (r ++ [EMPTY], (pstart, epos, golds))
  else if Ascii.eqb ch "#"%char then (r ++ [BRICK], (pstart, epos, golds))
  else if Ascii.eqb ch "H"%char then (r ++ [LADDER], (pstart, epos, golds))
  else if Ascii.eqb ch "="%char then (r ++ [ROPE], (pstart, epos, golds))
  else if Ascii.eqb ch "G"%char then (r ++ [GOLD], (pstart, epos, golds ++ [(x, y)]))
  else if Ascii.eqb ch "P"%char then (r ++ [EMPTY], ((x, y), epos, golds))
  else if Ascii.eqb ch "E"%char then (r ++ [EXIT], (pstart, (x, y), golds))
  else (r ++ [EMPTY], (pstart, epos, golds)).

Fixpoint parse_row (x y : Z) (row : list ascii)
    (st : list Z * ((Z * Z) * (Z * Z) * list (Z * Z)))
    : list Z * ((Z * Z) * (Z * Z) * list (Z * Z)) :=
  match row with
  | [] => st
  | ch :: rest => parse_row (x + 1) y rest (parse_char x y ch st)
  end.

Fixpoint parse_rows (y : Z) (lines : list string) (p : Parsed) : Parsed :=
  match lines with
  | [] => p
  | row :: rest =>
      let '(r, (pstart, epos, golds)) :=
        parse_row 0 y (list_ascii_of_string row)
          ([], (p_player_start p, p_exit_pos p, p_gold_positions p)) in
      parse_rows (y + 1) rest (mkParsed (p_grid p ++ [r]) pstart epos golds)
  end.

Definition parse_level (lines : list string) : Parsed :=
  parse_rows 0 lines (mkParsed [] (1, 1) (1, 1) []).

(** ** Grid helpers *)

Definition len {A} (l : list A) : Z := Z.of_nat (length l).

(** [grid[0]]: only evaluated after [0 <= y < len(grid)] succeeded, so the
    grid is non-empty whenever Python reaches it. *)
Definition row0 (g : list (list Z)) : list Z :=
  match g with
  | [] => []
  | r :: _ => r
  end.

Definition in_bounds (g : list (list Z)) (x y : Z) : bool :=
  (0 <=? y) && (y <? len g) && ((0 <=? x) && (x <? len (row0 g))).

(** [grid[y][x]] behind the bounds test.  On a ragged grid Python would raise
    [IndexError] where the lookup below falls back to its default; every grid
    the program builds is rectangular (see [rect] and [tile_at_lookup]). *)
Definition tile_at (g : list (list Z)) (x y : Z) : Z :=
  if negb (in_bounds g x y) then BRICK
  else default BRICK (g !! Z.to_nat y ≫= fun row => row !! Z.to_nat x).

Definition is_solid (t : Z) : bool := t =? BRICK.
Definition is_climbable (t : Z) : bool := t =? LADDER.
Definition is_rope (t : Z) : bool := t =? ROPE.
Definition is_walkable (t : Z) : bool :=
  (t =? EMPTY) || (t =? LADDER) || (t =? ROPE) || (t =? GOLD) || (t =? EXIT).

(** ** Entities and the engine state *)

Record Hole := mkHole { hx : Z; hy : Z; timer : Z }.
Record Player := mkPlayer { px : Z; py : Z; gold : Z }.
Record Enemy := mkEnemy { ex : Z; ey : Z; respawn : Z * Z }.

Record Game := mkGame {
  grid : list (list Z);
  player : Player;
  enemies : list Enemy;
  holes : list Hole;
  won : bool;
  dead : bool;
  countdown : Z;
  enemy_frame_counter : Z;
  exit_pos : Z * Z
}.

Definition with_grid (g : list (list Z)) (s : Game) : Game :=
  mkGame g (player s) (enemies s) (holes s) (won s) (dead s)
         (countdown s) (enemy_frame_counter s) (exit_pos s).
Definition with_player (p : Player) (s : Game) : Game :=
  mkGame (grid s) p (enemies s) (holes s) (won s) (dead s)
         (countdown s) (enemy_frame_counter s) (exit_pos s).
Definition with_enemies (es : list Enemy) (s : Game) : Game :=
  mkGame (grid s) (player s) es (holes s) (won s) (dead s)
         (countdown s) (enemy_frame_counter s) (exit_pos s).
Definition with_holes (hs : list Hole) (s : Game) : Game :=
  mkGame (grid s) (player s) (enemies s) hs (won s) (dead s)
         (countdown s) (enemy_frame_counter s) (exit_pos s).
Definition with_won (b : bool) (s : Game) : Game :=
  mkGame (grid s) (player s) (enemies s) (holes s) b (dead s)
         (countdown s) (enemy_frame_counter s) (exit_pos s).
Definition with_dead (b : bool) (s : Game) : Game :=
  mkGame (grid s) (player s) (enemies s) (holes s) (won s) b
         (countdown s) (enemy_frame_counter s) (exit_pos s).
Definition with_countdown (n : Z) (s : Game) : Game :=
  mkGame (grid s) (player s) (enemies s) (holes s) (won s) (dead s)
         n (enemy_frame_counter s) (exit_pos s).
Definition with_counter (n : Z) (s : Game) : Game :=
  mkGame (grid s) (player s) (enemies s) (holes s) (won s) (dead s)
         (countdown s) n (exit_pos s).

(** [Game.reset]: the single level of the program, one enemy spawned at an
    offset from the player start. *)
Definition reset : Game :=
  let lv := parse_level LEVEL_STR in
  let p := mkPlayer (fst (p_player_start lv)) (snd (p_player_start lv)) 0 in
  mkGame (p_grid lv) p
         [ mkEnemy (px p + 6) (py p - 6) (px p + 6, py p - 6) ]
         [] false false START_COUNTDOWN 0 (p_exit_pos lv).

Definition tile (s : Game) (x y : Z) : Z := tile_at (grid s) x y.

(** [grid[y][x] = t], guarded by [in_bounds]. *)
Definition set_tile_at (g : list (list Z)) (x y t : Z) : list (list Z) :=
  if in_bounds g x y
  then alter (fun row => <[Z.to_nat x := t]> row) (Z.to_nat y) g
  else g.

Definition set_tile (s : Game) (x y t : Z) : Game :=
  with_grid (set_tile_at (grid s) x y t) s.

Definition gravity_applies (s : Game) (x y : Z) : bool :=
  let under := tile s x (y + 1) in
  let here := tile s x y in
  if is_rope here then false
  else if is_climbable here then false
  else negb (is_solid under) && negb (is_climbable under).

(** [try_move], which the program only ever calls on the player. *)
Definition try_move (s : Game) (dx dy : Z) : Game * bool :=
  let nx := px (player s) + dx in
  let ny := py (player s) + dy in
  if is_walkable (tile s nx ny)
  then (with_player (mkPlayer nx ny (gold (player s))) s, true)
  else (s, false).

(** The scan [for other in self.enemies: if other is not e and ...]: object
    identity is the position in the list. *)
Fixpoint other_enemy_at (es : list Enemy) (j i : nat) (nx ny : Z) : bool :=
  match es with
  | [] => false
  | o :: rest =>
      if negb (Nat.eqb j i) && ((ex o =? nx) && (ey o =? ny)) then true
      else other_enemy_at rest (S j) i nx ny
  end.

(** [try_move_enemy] on the enemy stored at index [i]. *)
Definition try_move_enemy (s : Game) (i : nat) (dx dy : Z) : Game * bool :=
  match enemies s !! i with
  | None => (s, false)
  | Some e =>
      let nx := ex e + dx in
      let ny := ey e + dy in
      if negb (is_walkable (tile s nx ny)) then (s, false)
      else if other_enemy_at (enemies s) 0 i nx ny then (s, false)
      else (with_enemies (<[i := mkEnemy nx ny (respawn e)]> (enemies s)) s, true)
  end.

Definition collect_gold (s : Game) : Game :=
  if tile s (px (player s)) (py (player s)) =? GOLD
  then
    let s1 := set_tile s (px (player s)) (py (player s)) EMPTY in
    with_player (mkPlayer (px (player s1)) (py (player s1)) (gold (player s1) + 1)) s1
  else s.

Definition dig (s : Game) (direction : Z) : Game :=
  let x := px (player s) in
  let y := py (player s) in
  let target_x := x + direction in
  let target_y := y + 1 in
  if negb (tile s target_x target_y =? BRICK) then s
  else if negb (is_walkable (tile s (x + direction) y)) then s
  else
    let s1 := set_tile s target_x target_y EMPTY in
    with_holes (holes s1 ++ [mkHole target_x target_y HOLE_REGEN_FRAMES]) s1.

(** ** Hole regeneration *)

Definition at_hole (h : Hole) (e : Enemy) : bool :=
  (ex e =? hx h) && (ey e =? hy h).

(** [for e in self.enemies: if (e.x, e.y) == (h.x, h.y): e.x, e.y = e.respawn] *)
Definition crush (h : Hole) (es : list Enemy) : list Enemy :=
  (fun e => if at_hole h e
            then mkEnemy (fst (respawn e)) (snd (respawn e)) (respawn e)
            else e) <$> es.

Definition hole_eqb (a b : Hole) : bool :=
  (hx a =? hx b) && (hy a =? hy b) && (timer a =? timer b).

(** [list.remove]: drops the first element that compares equal (dataclass
    equality is field-wise). *)
Fixpoint remove_first (h : Hole) (l : list Hole) : list Hole :=
  match l with
  | [] => []
  | a :: rest => if hole_eqb a h then rest else a :: remove_first h rest
  end.

Definition tick_hole (h : Hole) : Hole := mkHole (hx h) (hy h) (timer h - 1).

(** The loop of [update_holes] over the snapshot [self.holes[:]].  The
    snapshot shares its [Hole] objects with the live list, so while the loop
    stands at [h] the live list reads [kept ++ tick_hole h :: todo], where
    [kept] are the holes already visited and not removed.  [todo] is what is
    left of the snapshot and [s] carries the grid and the enemies. *)
Fixpoint holes_loop (kept todo : list Hole) (s : Game) : Game :=
  match todo with
  | [] => with_holes kept s
  | h :: rest =>
      let h' := tick_hole h in
      if timer h' <=? 0
      then
        let s1 := with_enemies (crush h' (enemies s)) s in
        let s2 := set_tile s1 (hx h') (hy h') BRICK in
        holes_loop (remove_first h' (kept ++ [h'])) rest s2
      else holes_loop (kept ++ [h']) rest s
  end.

Definition update_holes (s : Game) : Game := holes_loop [] (holes s) s.

(** ** Enemy chase *)

Definition enemy_ai_step (s : Game) (i : nat) : Game :=
  match enemies s !! i with
  | None => s
  | Some e =>
      let p_x := px (player s) in
      let p_y := py (player s) in
      let e_x := ex e in
      let e_y := ey e in
      let here := tile s e_x e_y in
      let up := tile s e_x (e_y - 1) in
      let down := tile s e_x (e_y + 1) in
      if (is_climbable here || is_climbable down || is_climbable up)
         && ((p_y <? e_y) && is_walkable up && (is_climbable here || is_climbable up))
      then fst (try_move_enemy s i 0 (-1))
      else if (is_climbable here || is_climbable down || is_climbable up)
              && ((p_y >? e_y) && is_walkable down
                  && (is_climbable here || is_climbable down))
      then fst (try_move_enemy s i 0 1)
      else if p_y =? e_y then
        if p_x <? e_x then fst (try_move_enemy s i (-1) 0)
        else if p_x >? e_x then fst (try_move_enemy s i 1 0)
        else s
      else
        if p_x <? e_x then fst (try_move_enemy s i (-1) 0)
        else if p_x >? e_x then fst (try_move_enemy s i 1 0)
        else s
  end.

(** ** Player input *)

(** [if self.try_move(self.player, dx, dy): self.collect_gold()] *)
Definition move_and_collect (s : Game) (dx dy : Z) : Game :=
  let '(s', ok) := try_move s dx dy in
  if ok then collect_gold s' else s'.

Definition handle_player_move (s : Game) (dx dy : Z) : Game :=
  if won s || dead s || (countdown s >? 0) then s
  else if negb (dy =? 0)
          && negb (is_walkable (tile s (px (player s)) (py (player s) + dy)))
          && negb (is_climbable (tile s (px (player s)) (py (player s)))
                   || is_rope (tile s (px (player s)) (py (player s))))
  then s
  else
    let s1 := if negb (dx =? 0) then move_and_collect s dx 0 else s in
    if negb (dy =? 0) then move_and_collect s1 0 dy else s1.

(** ** One tick *)

Definition any_gold_left (g : list (list Z)) : bool :=
  existsb (fun row => existsb (fun t => t =? GOLD) row) g.

Definition at_player (s : Game) (e : Enemy) : bool :=
  (ex e =? px (player s)) && (ey e =? py (player s)).

Definition player_at_exit (s : Game) : bool :=
  (px (player s) =? fst (exit_pos s)) && (py (player s) =? snd (exit_pos s)).

(** Gravity on the player, one cell per tick at most. *)
Definition fall_player (s : Game) : Game :=
  if gravity_applies s (px (player s)) (py (player s))
  then fst (try_move s 0 1) else s.

(** Gravity on the player, gold pickup, win test. *)
Definition player_phase (s : Game) : Game :=
  let s2 := collect_gold (fall_player s) in
  if negb (any_gold_left (grid s2)) && player_at_exit s2
  then with_won true s2 else s2.

(** The body of [for e in self.enemies] on a cadence tick. *)
Definition enemy_turn (s : Game) (i : nat) : Game :=
  match enemies s !! i with
  | None => s
  | Some e =>
      if gravity_applies s (ex e) (ey e)
      then fst (try_move_enemy s i 0 1)
      else enemy_ai_step s i
  end.

(** The cadence counter and, every [ENEMY_MOVE_INTERVAL] ticks, one turn
    for each enemy in list order. *)
Definition enemy_phase (s : Game) : Game :=
  let s1 := with_counter (enemy_frame_counter s + 1) s in
  if enemy_frame_counter s1 >=? ENEMY_MOVE_INTERVAL
  then foldl enemy_turn (with_counter 0 s1) (seq 0 (length (enemies s1)))
  else s1.

(** [for e in self.enemies: if (e.x, e.y) == (player.x, player.y): dead = True] *)
Definition collision_phase (s : Game) : Game :=
  if existsb (at_player s) (enemies s) then with_dead true s else s.

Definition update_entities (s : Game) : Game :=
  if won s || dead s then s
  else if countdown s >? 0 then s
  else collision_phase (enemy_phase (player_phase s)).

Definition tick_countdown (s : Game) : Game :=
  if countdown s >? 0 then with_countdown (countdown s - 1) s else s.

Definition step (s : Game) : Game :=
  update_entities (update_holes (tick_countdown s)).

(** ** Events of the main loop *)

(** The calls [main] can make on the engine between two frames, and the
    frame tick itself. *)
Inductive Event :=
| DigLeft | DigRight
| MoveLeft | MoveRight | MoveUp | MoveDown
| Reset
| Tick.

Definition apply_event (s : Game) (e : Event) : Game :=
  match e with
  | DigLeft => dig s (-1)
  | DigRight => dig s 1
  | MoveLeft => handle_player_move s (-1) 0
  | MoveRight => handle_player_move s 1 0
  | MoveUp => handle_player_move s 0 (-1)
  | MoveDown => handle_player_move s 0 1
  | Reset => reset
  | Tick => step s
  end.

Definition run (s : Game) (evs : list Event) : Game := foldl apply_event s evs.

(** States the program can be in: everything obtained from a fresh [Game()]
    by the calls of the main loop. *)
Inductive reachable : Game -> Prop :=
| reach_reset : reachable reset
| reach_event s e : reachable s -> reachable (apply_event s e).

(** [n] frames without input. *)
Definition ticks (n : nat) : list Event := repeat Tick n.

(** ** Vocabulary of the properties *)

(** Every row is as long as the first one. *)
Definition rect (g : list (list Z)) : Prop :=
  Forall (fun r => length r = length (row0 g)) g.

(** The holes that outlive one tick, with their timers decremented. *)
Definition survivors (l : list Hole) : list Hole :=
  List.filter (fun h => 0 <? timer h) (List.map tick_hole l).

(** Some hole of [l] at [(x, y)] runs out on the next tick. *)
Definition expiring (l : list Hole) (x y : Z) : bool :=
  existsb (fun h => (timer h <=? 1) && ((hx h =? x) && (hy h =? y))) l.

(** An enemy sent back to its respawn coordinate. *)
Definition relocate (e : Enemy) : Enemy :=
  mkEnemy (fst (respawn e)) (snd (respawn e)) (respawn e).

(** The crush test of one hole [h] of the list the tick started with: it
    fires when [h] runs out on this tick and the enemy stands on it. *)
Definition crush1 (e : Enemy) (h : Hole) : Enemy :=
  if (timer h <=? 1) && at_hole h e then relocate e else e.

(** What the crush loops of one tick do to a single enemy, hole after hole. *)
Definition crush_all (l : list Hole) (e : Enemy) : Enemy := foldl crush1 e l.

(** An operation that can only rewrite the enemy list. *)
Definition only_enemies (s s' : Game) : Prop := s' = with_enemies (enemies s') s.

(** The falling rule in the words of the specification. *)
Definition falls_at_spec (here under : Z) : bool :=
  negb (is_rope here || is_climbable here)
  && negb (is_solid under || is_climbable under).

(** One horizontal step from column [from] towards column [to]; none when the
    columns agree. *)
Definition toward (from to : Z) : option (Z * Z) :=
  if to <? from then Some (-1, 0)
  else if from <? to then Some (1, 0)
  else None.

(** The decision table in the words of the specification: which step, if
    any, an enemy at [(e_x, e_y)] attempts, given the player's cell and the
    tiles here, above and below. *)
Definition chase_policy_spec (e_x e_y p_x p_y here up down : Z) : option (Z * Z) :=
  let near_ladder := is_climbable here || is_climbable up || is_climbable down in
  if near_ladder && (p_y <? e_y) && is_walkable up
     && (is_climbable here || is_climbable up)
  then Some (0, -1)
  else if near_ladder && (e_y <? p_y) && is_walkable down
          && (is_climbable here || is_climbable down)
  then Some (0, 1)
  else if p_y =? e_y then toward e_x p_x
  else toward e_x p_x.

(** Enemy [i] tries the step the policy chose, if it chose one. *)
Definition attempt (s : Game) (i : nat) (d : option (Z * Z)) : Game :=
  match d with
  | None => s
  | Some (dx, dy) => fst (try_move_enemy s i dx dy)
  end.

(** The two preconditions of [dig], as the source tests them. *)
Definition dig_ok (s : Game) (d : Z) : bool :=
  (tile s (px (player s) + d) (py (player s) + 1) =? BRICK)
  && is_walkable (tile s (px (player s) + d) (py (player s))).

(** The state [update_entities] receives within [step]. *)
Definition before_entities (s : Game) : Game := update_holes (tick_countdown s).

(** The state on which the win test of [update_entities] is evaluated. *)
Definition win_point (s : Game) : Game := collect_gold (fall_player s).

(** The state on which the collision scan of [update_entities] runs. *)
Definition collision_point (s : Game) : Game := enemy_phase (player_phase s).

(** The tile the level file puts at [(x, y)]. *)
Definition tile0 (x y : Z) : Z := tile_at (grid reset) x y.

(** Inside the 20 x 17 grid of the level. *)
Definition inb (x y : Z) : bool := in_bounds (grid reset) x y.

(** [P] checked on each of the 340 cells of the level. *)
Definition all_cells (P : Z -> Z -> bool) : bool :=
  forallb (fun j => forallb (fun i => P (Z.of_nat i) (Z.of_nat j)) (seq 0 20)) (seq 0 17).

(** How a cell may differ from the level file: a brick may be dug out and a
    gold cell may be picked up, nothing else. *)
Definition cell_ok (cur init : Z) : Prop :=
  cur = init \/ (cur = EMPTY /\ (init = BRICK \/ init = GOLD)).

(** No two holes inside the grid sit on the same cell. *)
Fixpoint distinct_cells (l : list Hole) : Prop :=
  match l with
  | [] => True
  | h :: t =>
      Forall (fun h' => inb (hx h) (hy h) = true ->
                        ~ (hx h' = hx h /\ hy h' = hy h)) t
      /\ distinct_cells t
  end.

(** What the grid and the hole list keep in common with the level: the
    dimensions, every cell up to digging and gold pickup, and sound hole
    records inside the grid. *)
Record grid_inv (g : list (list Z)) (hs : list Hole) : Prop := {
  gi_rect : rect g;
  gi_dims : forall x y, in_bounds g x y = inb x y;
  gi_cells : forall x y, cell_ok (tile_at g x y) (tile0 x y);
  gi_holes : forall h, In h hs -> inb (hx h) (hy h) = true ->
                       tile_at g (hx h) (hy h) = EMPTY /\ tile0 (hx h) (hy h) = BRICK;
  gi_distinct : distinct_cells hs
}.

(** Where the enemy of the level can be: falling down its spawn column, or on
    the two bottom rows. *)
Definition pos_ok (e : Enemy) : Prop :=
  (ex e = 17 /\ 9 <= ey e <= 14) \/ 15 <= ey e.

(** How one turn may change an enemy: not at all, one cell down under
    gravity, or one chase step, upwards only next to a ladder; a cell it
    enters is walkable. *)
Definition enemy_moved (s : Game) (e e' : Enemy) : Prop :=
  respawn e' = respawn e
  /\ (e' = e
      \/ (is_walkable (tile s (ex e') (ey e')) = true
          /\ ((gravity_applies s (ex e) (ey e) = true
               /\ ex e' = ex e /\ ey e' = ey e + 1)
              \/ (gravity_applies s (ex e) (ey e) = false
                  /\ ((ex e' = ex e /\ ey e' = ey e - 1
                       /\ (is_climbable (tile s (ex e) (ey e))
                           || is_climbable (tile s (ex e) (ey e - 1))) = true)
                      \/ (ex e' = ex e /\ ey e' = ey e + 1)
                      \/ ey e' = ey e))))).

(** The enemy as [reset] creates it. *)
Definition spawn_enemy : Enemy := mkEnemy 17 9 (17, 9).

(** The invariant of the states the program reaches.  While the countdown
    runs nothing has moved yet and the floor under the player is intact. *)
Record inv (s : Game) : Prop := {
  inv_grid : grid_inv (grid s) (holes s);
  inv_enemy : exists e, enemies s = [e] /\ respawn e = (17, 9) /\ pos_ok e;
  inv_exit : exit_pos s = (13, 11);
  inv_countdown : 0 <= countdown s;
  inv_starting :
    0 < countdown s ->
    won s = false /\ dead s = false
    /\ px (player s) = 11 /\ py (player s) = 15
    /\ enemies s = [spawn_enemy] /\ enemy_frame_counter s = 0
    /\ tile s 11 16 = BRICK;
  inv_excl : won s = true -> dead s = true -> False
}.

(** The four phases of the specification, read off the three status fields
    of the program. *)
Inductive Status := Starting (n : Z) | Running | Won | Lost.

(** [countdown > 0] is Starting, the flag [won] is Won, the flag [dead] is
    Lost, and Running is none of the three. *)
Definition in_status (s : Game) (st : Status) : Prop :=
  match st with
  | Starting n => 0 < n /\ countdown s = n
  | Running => countdown s <= 0 /\ won s = false /\ dead s = false
  | Won => won s = true
  | Lost => dead s = true
  end.

(** The coordinates of the player and of every enemy. *)
Definition positions (s : Game) : Z * Z * list (Z * Z) :=
  (px (player s), py (player s), List.map (fun e => (ex e, ey e)) (enemies s)).

(** No enemy stands on a [BRICK] cell. *)
Definition enemy_free (s : Game) : Prop :=
  forall e, In e (enemies s) -> tile s (ex e) (ey e) <> BRICK.

(** A state the program never reaches: all gold taken, the countdown over,
    the player one cell above the exit and the enemy on the exit. *)
Definition enemy_on_exit : Game :=
  let g := set_tile_at (set_tile_at (set_tile_at (grid reset) 12 1 EMPTY) 9 5 EMPTY)
                       12 9 EMPTY in
  mkGame g (mkPlayer 13 10 3) [mkEnemy 13 11 (17, 9)] [] false false 0 0 (13, 11).

(** A winning route, up to the last tick: after the countdown the player
    climbs column 12 through the gold at (12,9) and (12,1), crosses to column
    9, comes down through the gold at (9,5) and stops at (13,10), one cell
    above the exit. *)
Definition winning_route : list Event :=
  ticks 300 ++ [MoveRight] ++ repeat MoveUp 14 ++ repeat MoveLeft 3
  ++ repeat MoveDown 9 ++ repeat MoveRight 4.

(** The player waits out the countdown and 110 more ticks, while the enemy
    drops to the floor and walks up to the neighbouring cell (12,15), then
    steps onto the enemy's cell. *)
Definition walk_into_enemy : list Event := ticks 410 ++ [MoveRight].

(** The player digs two neighbouring floor cells, drops into one of them and
    then digs "below" the other: the target lies under the last row. *)
Definition below_floor : list Event :=
  ticks 300 ++ [DigLeft; MoveRight; DigLeft; MoveLeft; Tick].

(** ** Vocabulary of the level text and of the run invariants *)

(** The legend of the level format: [.] empty, [#] brick, [H] ladder, [=]
    rope, [G] gold, [P] player start (an empty cell), [E] exit; any other
    character is an empty cell. *)
Definition tile_of_char (ch : ascii) : Z :=
  if Ascii.eqb ch "#" then BRICK
  else if Ascii.eqb ch "H" then LADDER
  else if Ascii.eqb ch "=" then ROPE
  else if Ascii.eqb ch "G" then GOLD
  else if Ascii.eqb ch "E" then EXIT
  else EMPTY.

(** The cells of a level text, row by row. *)
Definition legend_grid (lines : list string) : list (list Z) :=
  List.map (fun line => List.map tile_of_char (list_ascii_of_string line)) lines.

(** The character of line [y] at column [x]. *)
Definition char_at (lines : list string) (x y : nat) : option ascii :=
  lines !! y ≫= fun line => list_ascii_of_string line !! x.

(** [v'] is what a scan of [row] (columns from [x], line [y]) leaves in a
    slot holding [v] that every character [c] overwrites with its position. *)
Definition marker_row (c : ascii) (row : list ascii) (x y : Z) (v v' : Z * Z) : Prop :=
  (v' = v /\ forall i, row !! i <> Some c)
  \/ (exists i, row !! i = Some c /\ v' = (x + Z.of_nat i, y)
                /\ forall j, (i < j)%nat -> row !! j <> Some c).

(** The same for a whole text read line by line from line number [y]. *)
Definition marker_text (c : ascii) (lines : list string) (y : Z) (v v' : Z * Z) : Prop :=
  (v' = v /\ forall i j, char_at lines i j <> Some c)
  \/ (exists i j, char_at lines i j = Some c /\ v' = (Z.of_nat i, y + Z.of_nat j)
                  /\ forall i' j', (j < j')%nat \/ (j = j' /\ (i < i')%nat) ->
                                   char_at lines i' j' <> Some c).

Fixpoint golds_in_row (x y : Z) (row : list ascii) : list (Z * Z) :=
  match row with
  | [] => []
  | ch :: rest =>
      (if Ascii.eqb ch "G" then [(x, y)] else []) ++ golds_in_row (x + 1) y rest
  end.

(** The [GOLD] cells of a row, of a grid. *)
Definition row_gold (row : list Z) : nat :=
  length (List.filter (fun t => t =? GOLD) row).

Definition gold_left (g : list (list Z)) : nat :=
  foldr (fun row n => (row_gold row + n)%nat) 0%nat g.

(** Gold still lying in the grid plus gold in the player's pocket. *)
Definition treasure (s : Game) : Z := Z.of_nat (gold_left (grid s)) + gold (player s).

Definition is_gold (t : Z) : nat := if t =? GOLD then 1%nat else 0%nat.

(** What the running program keeps true about gold. *)
Definition gold_inv (s : Game) : Prop :=
  treasure s = 3 /\ 0 <= gold (player s)
  /\ (won s = true -> gold_left (grid s) = 0%nat).

(** The player's cell lies inside the grid. *)
Definition player_inside (s : Game) : Prop :=
  in_bounds (grid s) (px (player s)) (py (player s)) = true.

(** Every hole record carries a timer between 1 and [HOLE_REGEN_FRAMES]. *)
Definition timers_ok (s : Game) : Prop :=
  forall h, In h (holes s) -> 0 < timer h <= HOLE_REGEN_FRAMES.

(** * Properties *)

(** ** The tile grid *)

Lemma in_bounds_spec g x y :
  in_bounds g x y = true <-> (0 <= y < len g) /\ (0 <= x < len (row0 g)).
Proof. unfold in_bounds. rewrite !andb_true_iff. lia. Qed.

Lemma in_bounds_false g x y :
  in_bounds g x y = false <-> ~ ((0 <= y < len g) /\ (0 <= x < len (row0 g))).
Proof. rewrite <- in_bounds_spec. destruct (in_bounds g x y); intuition congruence. Qed.

Lemma tile_at_oob g x y : in_bounds g x y = false -> tile_at g x y = BRICK.
Proof. unfold tile_at. intros ->. reflexivity. Qed.

(** On a rectangular grid the guarded read never leaves the lists. *)
Lemma tile_at_lookup g x y :
  rect g -> in_bounds g x y = true ->
  exists row, g !! Z.to_nat y = Some row
              /\ row !! Z.to_nat x = Some (tile_at g x y).
Proof.
  intros Hr Hb. pose proof Hb as Hb'. apply in_bounds_spec in Hb' as [Hy Hx].
  unfold len in *.
  destruct (lookup_lt_is_Some_2 g (Z.to_nat y)) as [row Hrow]; [lia|].
  exists row. split; [assumption|].
  assert (Hlen : length row = length (row0 g)).
  { unfold rect in Hr. rewrite Forall_forall in Hr. apply Hr.
    apply list_elem_of_lookup. eauto. }
  destruct (lookup_lt_is_Some_2 row (Z.to_nat x)) as [t Ht]; [lia|].
  unfold tile_at. rewrite Hb. simpl. rewrite Hrow. simpl. rewrite Ht. reflexivity.
Qed.

Lemma row0_alter_length (f : list Z -> list Z) i g :
  (forall r, length (f r) = length r) ->
  length (row0 (alter f i g)) = length (row0 g).
Proof. intros Hf. destruct g as [|r g]; [reflexivity|]. destruct i; simpl; auto. Qed.

Lemma set_tile_at_length g x y t :
  length (set_tile_at g x y t) = length g.
Proof. unfold set_tile_at. destruct (in_bounds g x y); [apply length_alter|reflexivity]. Qed.

Lemma set_tile_at_row0 g x y t :
  length (row0 (set_tile_at g x y t)) = length (row0 g).
Proof.
  unfold set_tile_at. destruct (in_bounds g x y); [|reflexivity].
  apply row0_alter_length. intros r. apply length_insert.
Qed.

Lemma in_bounds_set_tile_at g x y t x' y' :
  in_bounds (set_tile_at g x y t) x' y' = in_bounds g x' y'.
Proof. unfold in_bounds, len. rewrite set_tile_at_length, set_tile_at_row0. reflexivity. Qed.

Lemma rect_set_tile_at g x y t : rect g -> rect (set_tile_at g x y t).
Proof.
  intros Hr. unfold rect. rewrite set_tile_at_row0.
  unfold set_tile_at. destruct (in_bounds g x y); [|exact Hr].
  unfold rect in Hr. rewrite Forall_lookup in Hr |- *.
  intros j r Hj. destruct (decide (Z.to_nat y = j)) as [<-|Hne].
  - rewrite list_lookup_alter_eq in Hj.
    destruct (g !! Z.to_nat y) as [r0|] eqn:E; simpl in Hj; [|discriminate].
    injection Hj as <-. rewrite length_insert. eauto.
  - rewrite list_lookup_alter_ne in Hj by assumption. eauto.
Qed.

Lemma tile_at_set_tile_at_eq g x y t :
  rect g -> in_bounds g x y = true -> tile_at (set_tile_at g x y t) x y = t.
Proof.
  intros Hr Hb.
  destruct (tile_at_lookup g x y Hr Hb) as (row & Hrow & Ht).
  unfold tile_at. rewrite in_bounds_set_tile_at, Hb. simpl.
  unfold set_tile_at. rewrite Hb, list_lookup_alter_eq, Hrow. simpl.
  rewrite list_lookup_insert_eq; [reflexivity|].
  apply lookup_lt_is_Some_1. eauto.
Qed.

Lemma tile_at_set_tile_at_ne g x y t x' y' :
  (x, y) <> (x', y') ->
  tile_at (set_tile_at g x y t) x' y' = tile_at g x' y'.
Proof.
  intros Hne. unfold tile_at. rewrite in_bounds_set_tile_at.
  destruct (in_bounds g x' y') eqn:Hb'; [|reflexivity]. simpl.
  unfold set_tile_at. destruct (in_bounds g x y) eqn:Hb; [|reflexivity].
  apply in_bounds_spec in Hb as [Hy Hx]. apply in_bounds_spec in Hb' as [Hy' Hx'].
  destruct (decide (Z.to_nat y = Z.to_nat y')) as [Ey|Ny].
  - rewrite <- Ey, list_lookup_alter_eq.
    destruct (g !! Z.to_nat y) as [row|]; simpl; [|reflexivity].
    rewrite list_lookup_insert_ne; [reflexivity|].
    intros Ex. apply Hne. f_equal; lia.
    
  - rewrite list_lookup_alter_ne by assumption. reflexivity.
Qed.

(** What a read sees after a write, in one equation. *)
Lemma tile_at_set_tile_at g x y t x' y' :
  rect g ->
  tile_at (set_tile_at g x y t) x' y' =
  if in_bounds g x y && ((x =? x') && (y =? y')) then t else tile_at g x' y'.
Proof.
  intros Hr. destruct (in_bounds g x y) eqn:Hb; simpl.
  - destruct ((x =? x') && (y =? y')) eqn:E.
    + apply andb_true_iff in E as [Ex Ey].
      apply Z.eqb_eq in Ex, Ey. subst. apply tile_at_set_tile_at_eq; assumption.
    + apply tile_at_set_tile_at_ne. intros [= -> ->].
      rewrite !Z.eqb_refl in E. discriminate.
  - unfold set_tile_at. rewrite Hb. reflexivity.
Qed.

Lemma tile_set_tile s x y t x' y' :
  rect (grid s) ->
  tile (set_tile s x y t) x' y' =
  if in_bounds (grid s) x y && ((x =? x') && (y =? y')) then t else tile s x' y'.
Proof. intros Hr. unfold tile, set_tile. simpl. apply tile_at_set_tile_at, Hr. Qed.

(** ** Hole regeneration *)

Lemma remove_first_fresh kept h :
  Forall (fun k => 0 < timer k) kept -> timer h <= 0 ->
  remove_first h (kept ++ [h]) = kept.
Proof.
  intros Hk Hh. induction Hk as [|k kept Hk0 Hk IH]; simpl.
  - unfold hole_eqb. rewrite !Z.eqb_refl. reflexivity.
  - unfold hole_eqb at 1. replace (timer k =? timer h) with false by (symmetry; apply Z.eqb_neq; lia).
    rewrite andb_false_r. rewrite IH. reflexivity.
Qed.

Lemma holes_loop_frame kept todo s :
  player (holes_loop kept todo s) = player s
  /\ won (holes_loop kept todo s) = won s
  /\ dead (holes_loop kept todo s) = dead s
  /\ countdown (holes_loop kept todo s) = countdown s
  /\ enemy_frame_counter (holes_loop kept todo s) = enemy_frame_counter s
  /\ exit_pos (holes_loop kept todo s) = exit_pos s.
Proof.
  revert kept s. induction todo as [|h rest IH]; intros kept s; simpl.
  - repeat split.
  - destruct (timer h - 1 <=? 0).
    + match goal with |- context [holes_loop ?k rest ?s'] =>
        destruct (IH k s') as (H1 & H2 & H3 & H4 & H5 & H6) end.
      rewrite H1, H2, H3, H4, H5, H6. repeat split.
    + apply IH.
Qed.

Lemma holes_loop_holes kept todo s :
  Forall (fun k => 0 < timer k) kept ->
  holes (holes_loop kept todo s) = kept ++ survivors todo.
Proof.
  revert kept s. induction todo as [|h rest IH]; intros kept s Hk; simpl.
  - unfold survivors. simpl. rewrite app_nil_r. reflexivity.
  - unfold survivors. simpl. fold (survivors rest).
    destruct (timer h - 1 <=? 0) eqn:E.
    + apply Z.leb_le in E.
      replace (0 <? timer h - 1) with false by (symmetry; apply Z.ltb_ge; lia).
      rewrite remove_first_fresh by (simpl; auto). apply IH, Hk.
    + apply Z.leb_gt in E.
      replace (0 <? timer h - 1) with true by (symmetry; apply Z.ltb_lt; lia).
      rewrite IH.
      * rewrite <- app_assoc. reflexivity.
      * apply Forall_app. split; [assumption|]. constructor; [simpl; lia|constructor].
Qed.

Lemma holes_loop_rect kept todo s :
  rect (grid s) -> rect (grid (holes_loop kept todo s)).
Proof.
  revert kept s. induction todo as [|h rest IH]; intros kept s Hr; simpl.
  - exact Hr.
  - destruct (timer h - 1 <=? 0); apply IH; [|exact Hr].
    simpl. apply rect_set_tile_at, Hr.
Qed.

Lemma holes_loop_in_bounds kept todo s x y :
  in_bounds (grid (holes_loop kept todo s)) x y = in_bounds (grid s) x y.
Proof.
  revert kept s. induction todo as [|h rest IH]; intros kept s; simpl.
  - reflexivity.
  - destruct (timer h - 1 <=? 0); rewrite IH; [|reflexivity].
    simpl. apply in_bounds_set_tile_at.
Qed.

(** The grid after the loop: a cell reads [BRICK] when one of the visited
    holes ran out there, and is untouched otherwise. *)
Lemma holes_loop_tile kept todo s x y :
  rect (grid s) ->
  tile (holes_loop kept todo s) x y =
  if expiring todo x y then BRICK else tile s x y.
Proof.
  revert kept s. induction todo as [|h rest IH]; intros kept s Hr; simpl.
  - reflexivity.
  - replace (timer h <=? 1) with (timer h - 1 <=? 0)
      by (destruct (timer h - 1 <=? 0) eqn:E, (timer h <=? 1) eqn:F; try reflexivity;
          [apply Z.leb_le in E; apply Z.leb_gt in F|apply Z.leb_le in F; apply Z.leb_gt in E]; lia).
    destruct (timer h - 1 <=? 0) eqn:E; simpl.
    + rewrite IH by (simpl; apply rect_set_tile_at, Hr).
      destruct (expiring rest x y); [rewrite orb_true_r; reflexivity|].
      rewrite orb_false_r.
      match goal with |- tile ?s' x y = _ =>
        change (tile s' x y) with (tile (set_tile s (hx h) (hy h) BRICK) x y) end.
      rewrite tile_set_tile by exact Hr.
      destruct (in_bounds (grid s) (hx h) (hy h)) eqn:Hb; simpl; [reflexivity|].
      destruct ((hx h =? x) && (hy h =? y)) eqn:Exy; [|reflexivity].
      apply andb_true_iff in Exy as [Ex Ey]. apply Z.eqb_eq in Ex, Ey. subst.
      apply tile_at_oob, Hb.
    + apply IH, Hr.
Qed.

Lemma holes_loop_enemies kept todo s :
  enemies (holes_loop kept todo s) = crush_all todo <$> enemies s.
Proof.
  revert kept s. induction todo as [|h rest IH]; intros kept s; simpl.
  - unfold crush_all. simpl. symmetry. apply list_fmap_id.
  - replace (timer h - 1 <=? 0) with (timer h <=? 1)
      by (destruct (timer h - 1 <=? 0) eqn:E, (timer h <=? 1) eqn:F; try reflexivity;
          [apply Z.leb_le in E; apply Z.leb_gt in F|apply Z.leb_le in F; apply Z.leb_gt in E]; lia).
    destruct (timer h <=? 1) eqn:E; rewrite IH; simpl.
    + unfold crush. rewrite <- list_fmap_compose. apply list_fmap_ext.
      intros i e _. unfold compose, crush_all. simpl. f_equal.
      unfold crush1, relocate. rewrite E. reflexivity.
    + apply list_fmap_ext. intros i e _. unfold crush_all. simpl.
      f_equal. unfold crush1. rewrite E. reflexivity.
Qed.

Lemma relocate_idem e : relocate (relocate e) = relocate e.
Proof. reflexivity. Qed.

Lemma crush_all_relocate l e : crush_all l (relocate e) = relocate e.
Proof.
  unfold crush_all. induction l as [|h l IH]; simpl; [reflexivity|].
  unfold crush1 at 2. destruct ((timer h <=? 1) && at_hole h (relocate e)); exact IH.
Qed.

Lemma crush_all_respawn l e : respawn (crush_all l e) = respawn e.
Proof.
  unfold crush_all. revert e. induction l as [|h l IH]; intros e; simpl; [reflexivity|].
  rewrite IH. unfold crush1. destruct ((timer h <=? 1) && at_hole h e); reflexivity.
Qed.

Lemma crush_all_hit l e :
  expiring l (ex e) (ey e) = true -> crush_all l e = relocate e.
Proof.
  unfold crush_all. revert e. induction l as [|h l IH]; intros e; simpl; [discriminate|].
  unfold crush1 at 2, at_hole. rewrite (Z.eqb_sym (ex e)), (Z.eqb_sym (ey e)).
  destruct ((timer h <=? 1) && ((hx h =? ex e) && (hy h =? ey e))); simpl.
  - intros _. apply crush_all_relocate.
  - apply IH.
Qed.

Lemma crush_all_miss l e :
  expiring l (ex e) (ey e) = false -> crush_all l e = e.
Proof.
  unfold crush_all. revert e. induction l as [|h l IH]; intros e; simpl; [reflexivity|].
  unfold crush1 at 2, at_hole. rewrite (Z.eqb_sym (ex e)), (Z.eqb_sym (ey e)).
  destruct ((timer h <=? 1) && ((hx h =? ex e) && (hy h =? ey e))); simpl.
  - discriminate.
  - apply IH.
Qed.

Lemma expiring_In l x y :
  expiring l x y = true <->
  exists h, In h l /\ timer h <= 1 /\ hx h = x /\ hy h = y.
Proof.
  unfold expiring. rewrite existsb_exists. split.
  - intros (h & Hin & Hh). exists h. rewrite !andb_true_iff in Hh.
    rewrite Z.leb_le, !Z.eqb_eq in Hh. tauto.
  - intros (h & Hin & Ht & Hx & Hy). exists h. split; [assumption|].
    rewrite !andb_true_iff, Z.leb_le, !Z.eqb_eq. tauto.
Qed.

Lemma survivors_In l h' :
  In h' (survivors l) <-> exists h, In h l /\ 1 < timer h /\ h' = tick_hole h.
Proof.
  unfold survivors. rewrite filter_In, in_map_iff. split.
  - intros ((h & <- & Hin) & Hpos). apply Z.ltb_lt in Hpos. simpl in Hpos.
    exists h. repeat split; [assumption|lia].
  - intros (h & Hin & Ht & ->). split; [eauto|]. apply Z.ltb_lt. simpl. lia.
Qed.

Lemma survivors_app l1 l2 : survivors (l1 ++ l2) = survivors l1 ++ survivors l2.
Proof. unfold survivors. rewrite List.map_app, List.filter_app. reflexivity. Qed.

(** *** [update_holes] as a whole *)

Lemma update_holes_holes s : holes (update_holes s) = survivors (holes s).
Proof. unfold update_holes. rewrite holes_loop_holes by constructor. reflexivity. Qed.

Lemma update_holes_tile s x y :
  rect (grid s) ->
  tile (update_holes s) x y = if expiring (holes s) x y then BRICK else tile s x y.
Proof. apply holes_loop_tile. Qed.

Lemma update_holes_enemies s :
  enemies (update_holes s) = crush_all (holes s) <$> enemies s.
Proof. apply holes_loop_enemies. Qed.

Lemma update_holes_rect s : rect (grid s) -> rect (grid (update_holes s)).
Proof. apply holes_loop_rect. Qed.

(** ** Frames: which fields each operation can touch *)

Lemma collect_gold_frame s :
  enemies (collect_gold s) = enemies s /\ holes (collect_gold s) = holes s
  /\ won (collect_gold s) = won s /\ dead (collect_gold s) = dead s
  /\ countdown (collect_gold s) = countdown s
  /\ enemy_frame_counter (collect_gold s) = enemy_frame_counter s
  /\ exit_pos (collect_gold s) = exit_pos s
  /\ px (player (collect_gold s)) = px (player s)
  /\ py (player (collect_gold s)) = py (player s).
Proof.
  unfold collect_gold.
  destruct (tile s (px (player s)) (py (player s)) =? GOLD); simpl; repeat split.
Qed.

Lemma collect_gold_rect s : rect (grid s) -> rect (grid (collect_gold s)).
Proof.
  intros Hr. unfold collect_gold.
  destruct (tile s (px (player s)) (py (player s)) =? GOLD); simpl; [|exact Hr].
  apply rect_set_tile_at, Hr.
Qed.

Lemma collect_gold_in_bounds s x y :
  in_bounds (grid (collect_gold s)) x y = in_bounds (grid s) x y.
Proof.
  unfold collect_gold.
  destruct (tile s (px (player s)) (py (player s)) =? GOLD); simpl; [|reflexivity].
  apply in_bounds_set_tile_at.
Qed.

(** Gold pickup only ever turns the player's own [GOLD] cell into [EMPTY]. *)
Lemma collect_gold_tile s x y :
  rect (grid s) ->
  tile (collect_gold s) x y =
  if (tile s x y =? GOLD) && ((px (player s) =? x) && (py (player s) =? y))
  then EMPTY else tile s x y.
Proof.
  intros Hr. unfold collect_gold.
  destruct (tile s (px (player s)) (py (player s)) =? GOLD) eqn:Eg.
  - change (tile (with_player _ ?s1) x y) with (tile s1 x y).
    rewrite tile_set_tile by exact Hr.
    destruct ((px (player s) =? x) && (py (player s) =? y)) eqn:Exy.
    + apply andb_true_iff in Exy as [Ex Ey]. apply Z.eqb_eq in Ex, Ey. subst x y.
      rewrite Eg. simpl.
      destruct (in_bounds (grid s) (px (player s)) (py (player s))) eqn:Hb; [reflexivity|].
      apply Z.eqb_eq in Eg. unfold tile in Eg. rewrite tile_at_oob in Eg by exact Hb.
      discriminate.
    + rewrite !andb_false_r. reflexivity.
  - destruct ((px (player s) =? x) && (py (player s) =? y)) eqn:Exy.
    + apply andb_true_iff in Exy as [Ex Ey]. apply Z.eqb_eq in Ex, Ey. subst x y.
      rewrite Eg. reflexivity.
    + rewrite andb_false_r. reflexivity.
Qed.

Lemma only_enemies_refl s : only_enemies s s.
Proof. destruct s. reflexivity. Qed.

Lemma only_enemies_trans s1 s2 s3 :
  only_enemies s1 s2 -> only_enemies s2 s3 -> only_enemies s1 s3.
Proof. unfold only_enemies. intros H1 H2. rewrite H2, H1. reflexivity. Qed.

Lemma try_move_enemy_only s i dx dy : only_enemies s (fst (try_move_enemy s i dx dy)).
Proof.
  unfold try_move_enemy. destruct (enemies s !! i) as [e|]; [|apply only_enemies_refl].
  destruct (negb _); [apply only_enemies_refl|].
  destruct (other_enemy_at _ _ _ _ _); [apply only_enemies_refl|].
  reflexivity.
Qed.

Lemma enemy_ai_step_only s i : only_enemies s (enemy_ai_step s i).
Proof.
  unfold enemy_ai_step. destruct (enemies s !! i) as [e|]; [|apply only_enemies_refl].
  repeat match goal with
         | |- only_enemies _ (if ?c then _ else _) => destruct c
         end; auto using try_move_enemy_only, only_enemies_refl.
Qed.

Lemma enemy_turn_only s i : only_enemies s (enemy_turn s i).
Proof.
  unfold enemy_turn. destruct (enemies s !! i) as [e|]; [|apply only_enemies_refl].
  destruct (gravity_applies _ _ _); auto using try_move_enemy_only, enemy_ai_step_only.
Qed.

Lemma enemy_turns_only l s : only_enemies s (foldl enemy_turn s l).
Proof.
  revert s. induction l as [|i l IH]; intros s; simpl; [apply only_enemies_refl|].
  eapply only_enemies_trans; [apply enemy_turn_only|apply IH].
Qed.

Lemma enemy_phase_frame s :
  grid (enemy_phase s) = grid s /\ player (enemy_phase s) = player s
  /\ holes (enemy_phase s) = holes s /\ won (enemy_phase s) = won s
  /\ dead (enemy_phase s) = dead s /\ countdown (enemy_phase s) = countdown s
  /\ exit_pos (enemy_phase s) = exit_pos s.
Proof.
  unfold enemy_phase. destruct (_ >=? _).
  - match goal with |- context [foldl enemy_turn ?s0 ?l] =>
      pose proof (enemy_turns_only l s0) as H end.
    unfold only_enemies in H. rewrite H. simpl. repeat split.
  - simpl. repeat split.
Qed.

(** ** Gravity *)

Lemma gravity_applies_formula s x y :
  gravity_applies s x y = falls_at_spec (tile s x y) (tile s x (y + 1)).
Proof.
  unfold gravity_applies, falls_at_spec.
  destruct (is_rope (tile s x y)), (is_climbable (tile s x y)),
    (is_solid (tile s x (y + 1))), (is_climbable (tile s x (y + 1))); reflexivity.
Qed.

Lemma gravity_applies_support s x y :
  tile s x y = ROPE \/ tile s x y = LADDER -> gravity_applies s x y = false.
Proof. unfold gravity_applies. intros [-> | ->]; reflexivity. Qed.

Lemma gravity_applies_empty s x y :
  tile s x y = EMPTY -> tile s x (y + 1) = EMPTY -> gravity_applies s x y = true.
Proof. unfold gravity_applies. intros -> ->. reflexivity. Qed.

Lemma try_move_frame s dx dy :
  grid (fst (try_move s dx dy)) = grid s
  /\ enemies (fst (try_move s dx dy)) = enemies s
  /\ holes (fst (try_move s dx dy)) = holes s
  /\ won (fst (try_move s dx dy)) = won s
  /\ dead (fst (try_move s dx dy)) = dead s
  /\ countdown (fst (try_move s dx dy)) = countdown s
  /\ enemy_frame_counter (fst (try_move s dx dy)) = enemy_frame_counter s
  /\ exit_pos (fst (try_move s dx dy)) = exit_pos s.
Proof. unfold try_move. destruct (is_walkable _); simpl; repeat split. Qed.

Lemma player_phase_unfold s :
  player_phase s =
  let s2 := collect_gold (fall_player s) in
  if negb (any_gold_left (grid s2)) && player_at_exit s2
  then with_won true s2 else s2.
Proof. reflexivity. Qed.

Lemma fall_player_frame s :
  grid (fall_player s) = grid s /\ enemies (fall_player s) = enemies s
  /\ holes (fall_player s) = holes s /\ won (fall_player s) = won s
  /\ dead (fall_player s) = dead s /\ countdown (fall_player s) = countdown s
  /\ enemy_frame_counter (fall_player s) = enemy_frame_counter s
  /\ exit_pos (fall_player s) = exit_pos s.
Proof.
  unfold fall_player. destruct (gravity_applies _ _ _); [apply try_move_frame|].
  repeat split.
Qed.

Lemma player_phase_frame s :
  enemies (player_phase s) = enemies s /\ holes (player_phase s) = holes s
  /\ dead (player_phase s) = dead s /\ countdown (player_phase s) = countdown s
  /\ enemy_frame_counter (player_phase s) = enemy_frame_counter s
  /\ exit_pos (player_phase s) = exit_pos s
  /\ grid (player_phase s) = grid (collect_gold (fall_player s))
  /\ player (player_phase s) = player (collect_gold (fall_player s)).
Proof.
  rewrite player_phase_unfold. cbv zeta.
  destruct (collect_gold_frame (fall_player s)) as (H1 & H2 & H3 & H4 & H5 & H6 & H7 & _).
  destruct (fall_player_frame s) as (_ & G1 & G2 & G3 & G4 & G5 & G6 & G7).
  destruct (negb _ && _); simpl; rewrite H1, H2, H4, H5, H6, H7, G1, G2, G4, G5, G6, G7;
    repeat split.
Qed.

Lemma player_phase_rect s : rect (grid s) -> rect (grid (player_phase s)).
Proof.
  intros Hr. destruct (player_phase_frame s) as (_ & _ & _ & _ & _ & _ & -> & _).
  apply collect_gold_rect. destruct (fall_player_frame s) as (-> & _). exact Hr.
Qed.

Lemma player_phase_tile s x y :
  rect (grid s) ->
  tile (player_phase s) x y =
  if (tile s x y =? GOLD)
     && ((px (player (fall_player s)) =? x) && (py (player (fall_player s)) =? y))
  then EMPTY else tile s x y.
Proof.
  intros Hr. unfold tile at 1.
  destruct (player_phase_frame s) as (_ & _ & _ & _ & _ & _ & -> & _).
  fold (tile (collect_gold (fall_player s)) x y).
  destruct (fall_player_frame s) as (Hg & _).
  rewrite collect_gold_tile by (rewrite Hg; exact Hr).
  unfold tile. rewrite Hg. reflexivity.
Qed.

Lemma update_entities_running s :
  won s = false -> dead s = false -> countdown s <= 0 ->
  update_entities s = collision_phase (enemy_phase (player_phase s)).
Proof.
  intros Hw Hd Hc. unfold update_entities. rewrite Hw, Hd. simpl.
  replace (countdown s >? 0) with false; [reflexivity|].
  symmetry. rewrite Z.gtb_ltb. apply Z.ltb_ge. exact Hc.
Qed.

Lemma update_entities_gated s :
  won s = true \/ dead s = true \/ 0 < countdown s -> update_entities s = s.
Proof.
  unfold update_entities. intros [-> | [-> | Hc]].
  - reflexivity.
  - rewrite orb_true_r. reflexivity.
  - replace (countdown s >? 0) with true
      by (symmetry; rewrite Z.gtb_ltb; apply Z.ltb_lt; exact Hc).
    destruct (won s || dead s); reflexivity.
Qed.

Lemma collision_phase_frame s :
  grid (collision_phase s) = grid s /\ player (collision_phase s) = player s
  /\ enemies (collision_phase s) = enemies s /\ holes (collision_phase s) = holes s
  /\ won (collision_phase s) = won s /\ countdown (collision_phase s) = countdown s
  /\ enemy_frame_counter (collision_phase s) = enemy_frame_counter s
  /\ exit_pos (collision_phase s) = exit_pos s.
Proof. unfold collision_phase. destruct (existsb _ _); simpl; repeat split. Qed.

(** The player's cell after a whole [update_entities]: only gravity moves it. *)
Lemma update_entities_player_pos s :
  (px (player (update_entities s)), py (player (update_entities s))) =
  if won s || dead s || (countdown s >? 0)
  then (px (player s), py (player s))
  else (px (player (fall_player s)), py (player (fall_player s))).
Proof.
  unfold update_entities.
  destruct (won s || dead s); simpl; [reflexivity|].
  destruct (countdown s >? 0); [reflexivity|].
  destruct (collision_phase_frame (enemy_phase (player_phase s))) as (_ & -> & _).
  destruct (enemy_phase_frame (player_phase s)) as (_ & -> & _).
  destruct (player_phase_frame s) as (_ & _ & _ & _ & _ & _ & _ & ->).
  destruct (collect_gold_frame (fall_player s)) as (_ & _ & _ & _ & _ & _ & _ & -> & ->).
  reflexivity.
Qed.

Lemma fall_player_support s :
  tile s (px (player s)) (py (player s)) = ROPE
  \/ tile s (px (player s)) (py (player s)) = LADDER ->
  fall_player s = s.
Proof. intros H. unfold fall_player. rewrite gravity_applies_support by exact H. reflexivity. Qed.

Lemma fall_player_empty s :
  tile s (px (player s)) (py (player s)) = EMPTY ->
  tile s (px (player s)) (py (player s) + 1) = EMPTY ->
  player (fall_player s) =
  mkPlayer (px (player s)) (py (player s) + 1) (gold (player s)).
Proof.
  intros H1 H2. unfold fall_player. rewrite gravity_applies_empty by assumption.
  unfold try_move. rewrite Z.add_0_r, H2. reflexivity.
Qed.

Lemma enemy_turn_support s i e :
  enemies s !! i = Some e ->
  tile s (ex e) (ey e) = ROPE \/ tile s (ex e) (ey e) = LADDER ->
  enemy_turn s i = enemy_ai_step s i.
Proof.
  intros He H. unfold enemy_turn. rewrite He, gravity_applies_support by exact H.
  reflexivity.
Qed.

Lemma enemy_turn_single_falls s e :
  enemies s = [e] ->
  tile s (ex e) (ey e) = EMPTY -> tile s (ex e) (ey e + 1) = EMPTY ->
  enemies (enemy_turn s 0%nat) = [mkEnemy (ex e) (ey e + 1) (respawn e)].
Proof.
  intros He H1 H2. unfold enemy_turn. rewrite He. simpl.
  rewrite gravity_applies_empty by assumption.
  unfold try_move_enemy. rewrite He. simpl.
  rewrite Z.add_0_r, H2. reflexivity.
Qed.

Lemma enemy_phase_on_cadence s :
  ENEMY_MOVE_INTERVAL <= enemy_frame_counter s + 1 ->
  enemy_phase s =
  foldl enemy_turn (with_counter 0 s) (seq 0 (length (enemies s))).
Proof.
  intros H. unfold enemy_phase. cbv zeta.
  change (enemy_frame_counter (with_counter ?n s)) with n.
  replace (enemy_frame_counter s + 1 >=? ENEMY_MOVE_INTERVAL) with true
    by (symmetry; rewrite Z.geb_leb; apply Z.leb_le; exact H).
  reflexivity.
Qed.

Lemma enemy_phase_off_cadence s :
  enemy_frame_counter s + 1 < ENEMY_MOVE_INTERVAL ->
  enemy_phase s = with_counter (enemy_frame_counter s + 1) s.
Proof.
  intros H. unfold enemy_phase. cbv zeta.
  change (enemy_frame_counter (with_counter ?n s)) with n.
  replace (enemy_frame_counter s + 1 >=? ENEMY_MOVE_INTERVAL) with false
    by (symmetry; rewrite Z.geb_leb; apply Z.leb_gt; exact H).
  reflexivity.
Qed.

Lemma single_enemy_falls s e :
  rect (grid s) -> enemies s = [e] ->
  won s = false -> dead s = false -> countdown s <= 0 ->
  ENEMY_MOVE_INTERVAL <= enemy_frame_counter s + 1 ->
  tile s (ex e) (ey e) = EMPTY -> tile s (ex e) (ey e + 1) = EMPTY ->
  enemies (update_entities s) = [mkEnemy (ex e) (ey e + 1) (respawn e)].
Proof.
  intros Hr He Hw Hd Hc Hcad H1 H2.
  rewrite update_entities_running by assumption.
  destruct (collision_phase_frame (enemy_phase (player_phase s))) as (_ & _ & -> & _).
  destruct (player_phase_frame s) as (Hen & _ & _ & _ & Hcnt & _).
  rewrite enemy_phase_on_cadence by (rewrite Hcnt; exact Hcad).
  rewrite Hen, He. cbn [length seq foldl].
  apply enemy_turn_single_falls.
  - change (enemies (with_counter 0 ?s0)) with (enemies s0). rewrite Hen. exact He.
  - change (tile (with_counter 0 ?s0) ?x ?y) with (tile s0 x y).
    rewrite player_phase_tile, H1 by exact Hr. reflexivity.
  - change (tile (with_counter 0 ?s0) ?x ?y) with (tile s0 x y).
    rewrite player_phase_tile, H2 by exact Hr. reflexivity.
Qed.

(** C5: [gravity_applies] is exactly "not on a rope or ladder, and nothing
    solid or climbable underneath".  Hence an entity on a rope or ladder is
    never made to fall (the player keeps its cell over a whole
    [update_entities], an enemy takes the chase branch instead of the
    gravity branch), while on [EMPTY] over [EMPTY] the player falls one cell
    on every running tick and the enemy one cell on every cadence tick. *)
Theorem C5_gravity_rule :
  (forall s x y,
      gravity_applies s x y = falls_at_spec (tile s x y) (tile s x (y + 1)))
  /\ (forall s x y,
        tile s x y = ROPE \/ tile s x y = LADDER -> gravity_applies s x y = false)
  /\ (forall s,
        tile s (px (player s)) (py (player s)) = ROPE
        \/ tile s (px (player s)) (py (player s)) = LADDER ->
        px (player (update_entities s)) = px (player s)
        /\ py (player (update_entities s)) = py (player s))
  /\ (forall s i e,
        enemies s !! i = Some e ->
        tile s (ex e) (ey e) = ROPE \/ tile s (ex e) (ey e) = LADDER ->
        enemy_turn s i = enemy_ai_step s i)
  /\ (forall s,
        won s = false -> dead s = false -> countdown s <= 0 ->
        tile s (px (player s)) (py (player s)) = EMPTY ->
        tile s (px (player s)) (py (player s) + 1) = EMPTY ->
        px (player (update_entities s)) = px (player s)
        /\ py (player (update_entities s)) = py (player s) + 1)
  /\ (forall s e,
        rect (grid s) -> enemies s = [e] ->
        won s = false -> dead s = false -> countdown s <= 0 ->
        ENEMY_MOVE_INTERVAL <= enemy_frame_counter s + 1 ->
        tile s (ex e) (ey e) = EMPTY -> tile s (ex e) (ey e + 1) = EMPTY ->
        enemies (update_entities s) = [mkEnemy (ex e) (ey e + 1) (respawn e)]).
Proof.
  split; [exact gravity_applies_formula|].
  split; [exact gravity_applies_support|].
  split.
  { intros s H. pose proof (update_entities_player_pos s) as Hp.
    rewrite (fall_player_support s H) in Hp.
    destruct (won s || dead s || (countdown s >? 0)); injection Hp; auto. }
  split; [exact enemy_turn_support|].
  split.
  { intros s Hw Hd Hc H1 H2. pose proof (update_entities_player_pos s) as Hp.
    rewrite Hw, Hd in Hp. simpl in Hp.
    replace (countdown s >? 0) with false in Hp
      by (symmetry; rewrite Z.gtb_ltb; apply Z.ltb_ge; exact Hc).
    rewrite (fall_player_empty s H1 H2) in Hp. simpl in Hp. injection Hp; auto. }
  exact single_enemy_falls.
Qed.

(** ** The enemy chase policy *)

Lemma other_enemy_at_spec es j0 i nx ny :
  other_enemy_at es j0 i nx ny = true <->
  exists k o, es !! k = Some o /\ (j0 + k)%nat <> i /\ ex o = nx /\ ey o = ny.
Proof.
  revert j0. induction es as [|o es IH]; intros j0; simpl.
  - split; [discriminate|]. intros (k & o & Hk & _). destruct k; discriminate.
  - destruct (negb (j0 =? i)%nat && ((ex o =? nx) && (ey o =? ny))) eqn:E.
    + split; [intros _|reflexivity].
      rewrite !andb_true_iff, negb_true_iff, Nat.eqb_neq, !Z.eqb_eq in E.
      exists 0%nat, o. rewrite Nat.add_0_r. tauto.
    + rewrite IH. split.
      * intros (k & o' & Hk & Hne & Hx & Hy). exists (S k), o'.
        rewrite Nat.add_succ_r. tauto.
      * intros (k & o' & Hk & Hne & Hx & Hy). destruct k as [|k].
        -- simpl in Hk. injection Hk as <-. rewrite Nat.add_0_r in Hne.
           exfalso. apply not_true_iff_false in E. apply E.
           rewrite !andb_true_iff, negb_true_iff, Nat.eqb_neq, !Z.eqb_eq. tauto.
        -- exists k, o'. rewrite Nat.add_succ_r in Hne. tauto.
Qed.

Lemma try_move_enemy_blocked s i e dx dy :
  enemies s !! i = Some e ->
  is_walkable (tile s (ex e + dx) (ey e + dy)) = false
  \/ (exists j o, j <> i /\ enemies s !! j = Some o
                  /\ ex o = ex e + dx /\ ey o = ey e + dy) ->
  try_move_enemy s i dx dy = (s, false).
Proof.
  intros He H. unfold try_move_enemy. rewrite He.
  destruct (is_walkable (tile s (ex e + dx) (ey e + dy))) eqn:W; simpl; [|reflexivity].
  destruct H as [H | (j & o & Hne & Hj & Hx & Hy)]; [discriminate|].
  replace (other_enemy_at _ _ _ _ _) with true; [reflexivity|].
  symmetry. apply other_enemy_at_spec. exists j, o. simpl. tauto.
Qed.

Lemma try_move_enemy_free s i e dx dy :
  enemies s !! i = Some e ->
  is_walkable (tile s (ex e + dx) (ey e + dy)) = true ->
  (forall j o, j <> i -> enemies s !! j = Some o ->
               ~ (ex o = ex e + dx /\ ey o = ey e + dy)) ->
  try_move_enemy s i dx dy =
  (with_enemies (<[i := mkEnemy (ex e + dx) (ey e + dy) (respawn e)]> (enemies s)) s,
   true).
Proof.
  intros He W H. unfold try_move_enemy. rewrite He, W. simpl.
  destruct (other_enemy_at _ _ _ _ _) eqn:O; [|reflexivity].
  apply other_enemy_at_spec in O as (j & o & Hj & Hne & Hx & Hy).
  exfalso. apply (H j o); auto.
Qed.

Lemma enemy_ai_step_policy s i e :
  enemies s !! i = Some e ->
  enemy_ai_step s i =
  attempt s i
    (chase_policy_spec (ex e) (ey e) (px (player s)) (py (player s))
       (tile s (ex e) (ey e)) (tile s (ex e) (ey e - 1)) (tile s (ex e) (ey e + 1))).
Proof.
  intros He. unfold enemy_ai_step, chase_policy_spec, toward, attempt. rewrite He.
  cbv zeta.
  set (here := tile s (ex e) (ey e)).
  set (up := tile s (ex e) (ey e - 1)).
  set (down := tile s (ex e) (ey e + 1)).
  rewrite !Z.gtb_ltb.
  destruct (is_climbable here), (is_climbable up), (is_climbable down),
    (py (player s) <? ey e), (ey e <? py (player s)),
    (is_walkable up), (is_walkable down); simpl;
    destruct (py (player s) =? ey e), (px (player s) <? ex e),
      (ex e <? px (player s)); reflexivity.
Qed.

(** C9: the chase decision of an enemy is the specification's decision
    table, a function of the two positions and the three tiles here, above
    and below (ladder rule first, then the same-row chase, then the
    horizontal fallback); the step it picks goes through [try_move_enemy],
    which leaves the state as it is when the destination is not walkable or
    holds another enemy, and otherwise moves just this enemy there. *)
Theorem C9_chase_policy :
  (forall s i e,
      enemies s !! i = Some e ->
      enemy_ai_step s i =
      attempt s i
        (chase_policy_spec (ex e) (ey e) (px (player s)) (py (player s))
           (tile s (ex e) (ey e)) (tile s (ex e) (ey e - 1))
           (tile s (ex e) (ey e + 1))))
  /\ (forall s i e,
        enemies s !! i = Some e ->
        gravity_applies s (ex e) (ey e) = false ->
        enemy_turn s i = enemy_ai_step s i)
  /\ (forall s i e dx dy,
        enemies s !! i = Some e ->
        is_walkable (tile s (ex e + dx) (ey e + dy)) = false
        \/ (exists j o, j <> i /\ enemies s !! j = Some o
                        /\ ex o = ex e + dx /\ ey o = ey e + dy) ->
        try_move_enemy s i dx dy = (s, false))
  /\ (forall s i e dx dy,
        enemies s !! i = Some e ->
        is_walkable (tile s (ex e + dx) (ey e + dy)) = true ->
        (forall j o, j <> i -> enemies s !! j = Some o ->
                     ~ (ex o = ex e + dx /\ ey o = ey e + dy)) ->
        try_move_enemy s i dx dy =
        (with_enemies
           (<[i := mkEnemy (ex e + dx) (ey e + dy) (respawn e)]> (enemies s)) s,
         true)).
Proof.
  split; [exact enemy_ai_step_policy|].
  split.
  { intros s i e He Hg. unfold enemy_turn. rewrite He, Hg. reflexivity. }
  split; [exact try_move_enemy_blocked|exact try_move_enemy_free].
Qed.

(** ** Digging *)

Lemma dig_success s d :
  dig_ok s d = true ->
  dig s d =
  with_holes
    (holes s ++ [mkHole (px (player s) + d) (py (player s) + 1) HOLE_REGEN_FRAMES])
    (set_tile s (px (player s) + d) (py (player s) + 1) EMPTY).
Proof.
  unfold dig_ok, dig. intros H. apply andb_true_iff in H as [-> ->]. reflexivity.
Qed.

Lemma dig_noop s d : dig_ok s d = false -> dig s d = s.
Proof.
  unfold dig_ok, dig. intros H.
  destruct (tile s (px (player s) + d) (py (player s) + 1) =? BRICK); simpl in *;
    [rewrite H|]; reflexivity.
Qed.

Lemma dig_frame s d :
  player (dig s d) = player s /\ enemies (dig s d) = enemies s
  /\ won (dig s d) = won s /\ dead (dig s d) = dead s
  /\ countdown (dig s d) = countdown s
  /\ enemy_frame_counter (dig s d) = enemy_frame_counter s
  /\ exit_pos (dig s d) = exit_pos s.
Proof.
  destruct (dig_ok s d) eqn:E.
  - rewrite dig_success by exact E. simpl. repeat split.
  - rewrite dig_noop by exact E. repeat split.
Qed.

Lemma dig_rect s d : rect (grid s) -> rect (grid (dig s d)).
Proof.
  intros Hr. destruct (dig_ok s d) eqn:E.
  - rewrite dig_success by exact E. simpl. apply rect_set_tile_at, Hr.
  - rewrite dig_noop by exact E. exact Hr.
Qed.

Lemma dig_status_blind s d w dd c :
  dig (with_won w (with_dead dd (with_countdown c s))) d =
  with_won w (with_dead dd (with_countdown c (dig s d))).
Proof.
  unfold dig. simpl.
  change (tile (with_won w (with_dead dd (with_countdown c s)))) with (tile s).
  destruct (negb _); [reflexivity|]. destruct (negb _); reflexivity.
Qed.

Lemma app_singleton_neq {A} (l : list A) (a : A) : l <> l ++ [a].
Proof.
  intros H. apply (f_equal (@length A)) in H. rewrite length_app in H. simpl in H. lia.
Qed.

(** What [dig] does, for every state and direction.  A hole with the
    regeneration countdown is appended exactly when the target reads [BRICK]
    and the cell beside the player, on the player's own row, is walkable, and
    this for every target, also one outside the grid.  The target reads
    [EMPTY] afterwards when it lies inside the grid; no other cell changes;
    when a precondition fails the whole state is unchanged; and [dig] neither
    reads nor writes the status fields. *)
Lemma dig_effect (s : Game) (d : Z) :
  rect (grid s) ->
  let tx := px (player s) + d in
  let ty := py (player s) + 1 in
  (holes (dig s d) = holes s ++ [mkHole tx ty HOLE_REGEN_FRAMES]
   <-> (tile s tx ty = BRICK
        /\ is_walkable (tile s (px (player s) + d) (py (player s))) = true))
  /\ (dig_ok s d = true -> in_bounds (grid s) tx ty = true ->
      tile (dig s d) tx ty = EMPTY)
  /\ (dig_ok s d = true ->
      forall x y, (x, y) <> (tx, ty) -> tile (dig s d) x y = tile s x y)
  /\ (dig_ok s d = false -> dig s d = s)
  /\ (forall w dd c,
        dig (with_won w (with_dead dd (with_countdown c s))) d =
        with_won w (with_dead dd (with_countdown c (dig s d)))).
Proof.
  intros Hr tx ty. split; [|split; [|split; [|split]]].
  - split.
    + intros Hh. destruct (dig_ok s d) eqn:E.
      * unfold dig_ok in E. apply andb_true_iff in E as [E1 E2].
        apply Z.eqb_eq in E1. auto.
      * rewrite dig_noop in Hh by exact E. exfalso. exact (app_singleton_neq _ _ Hh).
    + intros [Ht Hw].
      assert (E : dig_ok s d = true).
      { unfold dig_ok. unfold tx, ty in Ht. rewrite Ht, Hw. reflexivity. }
      rewrite dig_success by exact E. reflexivity.
  - intros E Hb. rewrite dig_success by exact E. fold tx ty.
    change (tile (with_holes _ ?s1) tx ty) with (tile s1 tx ty).
    rewrite tile_set_tile by exact Hr. rewrite Hb, !Z.eqb_refl. reflexivity.
  - intros E x y Hne. rewrite dig_success by exact E. fold tx ty.
    change (tile (with_holes _ ?s1) x y) with (tile s1 x y).
    unfold tile, set_tile. simpl. apply tile_at_set_tile_at_ne. congruence.
  - apply dig_noop.
  - intros w dd c. apply dig_status_blind.
Qed.

(** ** The win test *)

Lemma tick_countdown_frame s :
  grid (tick_countdown s) = grid s /\ player (tick_countdown s) = player s
  /\ enemies (tick_countdown s) = enemies s /\ holes (tick_countdown s) = holes s
  /\ won (tick_countdown s) = won s /\ dead (tick_countdown s) = dead s
  /\ enemy_frame_counter (tick_countdown s) = enemy_frame_counter s
  /\ exit_pos (tick_countdown s) = exit_pos s.
Proof. unfold tick_countdown. destruct (countdown s >? 0); simpl; repeat split. Qed.

Lemma tick_countdown_value s :
  countdown (tick_countdown s) = if countdown s >? 0 then countdown s - 1 else countdown s.
Proof. unfold tick_countdown. destruct (countdown s >? 0); reflexivity. Qed.

Lemma step_unfold s : step s = update_entities (before_entities s).
Proof. reflexivity. Qed.

Lemma before_entities_frame s :
  player (before_entities s) = player s /\ won (before_entities s) = won s
  /\ dead (before_entities s) = dead s
  /\ countdown (before_entities s) = countdown (tick_countdown s)
  /\ enemy_frame_counter (before_entities s) = enemy_frame_counter s
  /\ exit_pos (before_entities s) = exit_pos s.
Proof.
  unfold before_entities, update_holes.
  destruct (holes_loop_frame [] (holes (tick_countdown s)) (tick_countdown s))
    as (-> & -> & -> & -> & -> & ->).
  destruct (tick_countdown_frame s) as (_ & -> & _ & _ & -> & -> & -> & ->).
  repeat split.
Qed.

Lemma player_phase_won s :
  won (player_phase s) =
  (negb (any_gold_left (grid (win_point s))) && player_at_exit (win_point s)) || won s.
Proof.
  rewrite player_phase_unfold. cbv zeta. fold (win_point s).
  destruct (negb _ && _); simpl; [reflexivity|].
  unfold win_point.
  destruct (collect_gold_frame (fall_player s)) as (_ & _ & -> & _).
  destruct (fall_player_frame s) as (_ & _ & _ & -> & _). reflexivity.
Qed.

Lemma update_entities_won s :
  won s = false ->
  won (update_entities s) =
  negb (dead s) && negb (countdown s >? 0)
  && (negb (any_gold_left (grid (win_point s))) && player_at_exit (win_point s)).
Proof.
  intros Hw. unfold update_entities. rewrite Hw. cbn [orb].
  destruct (dead s); cbn [negb andb]; [exact Hw|].
  destruct (countdown s >? 0); cbn [negb andb]; [exact Hw|].
  destruct (collision_phase_frame (enemy_phase (player_phase s))) as (_ & _ & _ & _ & -> & _).
  destruct (enemy_phase_frame (player_phase s)) as (_ & _ & _ & -> & _).
  rewrite player_phase_won, Hw, orb_false_r. reflexivity.
Qed.

(** The scan [any(GOLD in row for row in self.grid)] finds gold exactly when
    some cell reads [GOLD]. *)
Lemma any_gold_left_cell g :
  rect g -> (any_gold_left g = true <-> exists x y, tile_at g x y = GOLD).
Proof.
  intros Hr. unfold any_gold_left. rewrite existsb_exists. split.
  - intros (row & Hrow & Hex). apply existsb_exists in Hex as (t & Ht & Et).
    apply Z.eqb_eq in Et. subst t.
    apply list_elem_of_In, list_elem_of_lookup in Hrow as (j & Hj).
    apply list_elem_of_In, list_elem_of_lookup in Ht as (i & Hi).
    exists (Z.of_nat i), (Z.of_nat j).
    assert (Hlen : length row = length (row0 g)).
    { unfold rect in Hr. rewrite Forall_forall in Hr. apply Hr.
      apply list_elem_of_lookup. eauto. }
    assert (Hb : in_bounds g (Z.of_nat i) (Z.of_nat j) = true).
    { apply in_bounds_spec. unfold len.
      apply lookup_lt_Some in Hj. apply lookup_lt_Some in Hi. lia. }
    unfold tile_at. rewrite Hb, !Nat2Z.id, Hj. simpl. rewrite Hi. reflexivity.
  - intros (x & y & Ht). unfold tile_at in Ht.
    destruct (in_bounds g x y); simpl in Ht; [|discriminate].
    destruct (g !! Z.to_nat y) as [row|] eqn:Hj; simpl in Ht; [|discriminate].
    destruct (row !! Z.to_nat x) as [t|] eqn:Hi; simpl in Ht; [|discriminate].
    subst t. exists row. split.
    + apply list_elem_of_In, list_elem_of_lookup. eauto.
    + apply existsb_exists. exists GOLD. split; [|reflexivity].
      apply list_elem_of_In, list_elem_of_lookup. eauto.
Qed.

Lemma no_gold_left_cells g :
  rect g -> (any_gold_left g = false <-> forall x y, tile_at g x y <> GOLD).
Proof.
  intros Hr. pose proof (any_gold_left_cell g Hr) as H.
  destruct (any_gold_left g); split.
  - discriminate.
  - intros Hn. exfalso. destruct (proj1 H eq_refl) as (x & y & Hxy).
    exact (Hn x y Hxy).
  - intros _ x y Hxy. assert (false = true) by (apply H; eauto). discriminate.
  - reflexivity.
Qed.

Lemma before_entities_rect s : rect (grid s) -> rect (grid (before_entities s)).
Proof.
  intros Hr. unfold before_entities. apply update_holes_rect.
  destruct (tick_countdown_frame s) as (-> & _). exact Hr.
Qed.

Lemma win_point_rect s : rect (grid s) -> rect (grid (win_point s)).
Proof.
  intros Hr. unfold win_point. apply collect_gold_rect.
  destruct (fall_player_frame s) as (-> & _). exact Hr.
Qed.

(** C6: a tick turns [won] on exactly when, with the status Running after
    the countdown was advanced (not dead, countdown at zero), no cell of the
    grid reads [GOLD] and the player stands on the exit at the point where
    [update_entities] tests it (after gravity and gold pickup); while the
    status is Starting, Won or Lost the flag is left as it was. *)
Theorem C6_win_condition (s : Game) :
  rect (grid s) ->
  (won s = false ->
   (won (step s) = true <->
    dead s = false /\ countdown (tick_countdown s) <= 0
    /\ (forall x y, tile (win_point (before_entities s)) x y <> GOLD)
    /\ px (player (win_point (before_entities s))) = fst (exit_pos s)
    /\ py (player (win_point (before_entities s))) = snd (exit_pos s)))
  /\ (won s = true \/ dead s = true \/ 0 < countdown (tick_countdown s) ->
      won (step s) = won s).
Proof.
  intros Hr.
  destruct (before_entities_frame s) as (Hp & Hw & Hd & Hc & _ & He).
  split.
  - intros Hw0. rewrite step_unfold, update_entities_won by congruence.
    rewrite Hd, Hc. unfold player_at_exit.
    replace (exit_pos (win_point (before_entities s))) with (exit_pos s).
    2:{ unfold win_point.
        destruct (collect_gold_frame (fall_player (before_entities s)))
          as (_ & _ & _ & _ & _ & _ & -> & _).
        destruct (fall_player_frame (before_entities s)) as (_ & _ & _ & _ & _ & _ & _ & ->).
        symmetry. exact He. }
    pose proof (no_gold_left_cells (grid (win_point (before_entities s)))
                  (win_point_rect _ (before_entities_rect s Hr))) as Hscan.
    fold (tile (win_point (before_entities s))) in Hscan.
    rewrite <- Hscan.
    rewrite !andb_true_iff, !negb_true_iff, !Z.eqb_eq, Z.gtb_ltb, Z.ltb_ge. tauto.
  - intros H. rewrite step_unfold, update_entities_gated; [exact Hw|].
    rewrite Hw, Hd, Hc. exact H.
Qed.

(** ** Regeneration leaves the player alone *)

Lemma update_holes_frame s :
  player (update_holes s) = player s /\ won (update_holes s) = won s
  /\ dead (update_holes s) = dead s /\ countdown (update_holes s) = countdown s
  /\ enemy_frame_counter (update_holes s) = enemy_frame_counter s
  /\ exit_pos (update_holes s) = exit_pos s.
Proof. apply holes_loop_frame. Qed.

Lemma update_holes_expired_tile s h :
  rect (grid s) -> In h (holes s) -> timer h <= 1 ->
  tile (update_holes s) (hx h) (hy h) = BRICK.
Proof.
  intros Hr Hin Ht. rewrite update_holes_tile by exact Hr.
  replace (expiring (holes s) (hx h) (hy h)) with true; [reflexivity|].
  symmetry. apply expiring_In. exists h. auto.
Qed.

Lemma update_holes_expired_gone s h :
  timer h <= 1 -> ~ In (tick_hole h) (holes (update_holes s)).
Proof.
  intros Ht Hin. rewrite update_holes_holes in Hin.
  apply survivors_In in Hin as (h0 & _ & Hpos & Heq).
  apply (f_equal timer) in Heq. simpl in Heq. lia.
Qed.

Lemma update_holes_enemy_kept s i e :
  enemies s !! i = Some e -> expiring (holes s) (ex e) (ey e) = false ->
  enemies (update_holes s) !! i = Some e.
Proof.
  intros He Hx. rewrite update_holes_enemies, list_lookup_fmap, He. simpl.
  rewrite crush_all_miss by exact Hx. reflexivity.
Qed.

Lemma update_holes_enemy_crushed s i e :
  enemies s !! i = Some e -> expiring (holes s) (ex e) (ey e) = true ->
  enemies (update_holes s) !! i = Some (relocate e).
Proof.
  intros He Hx. rewrite update_holes_enemies, list_lookup_fmap, He. simpl.
  rewrite crush_all_hit by exact Hx. reflexivity.
Qed.

(** C10: when a hole runs out under the player, [update_holes] still turns
    the cell into [BRICK] and drops the hole, and it leaves the player (cell
    and gold count) and the status fields exactly as they were; of the
    enemies, those standing on no expiring hole are untouched. *)
Theorem C10_player_sealed (s : Game) (h : Hole) :
  rect (grid s) -> In h (holes s) -> timer h <= 1 ->
  px (player s) = hx h -> py (player s) = hy h ->
  tile (update_holes s) (px (player s)) (py (player s)) = BRICK
  /\ holes (update_holes s) = survivors (holes s)
  /\ ~ In (tick_hole h) (holes (update_holes s))
  /\ player (update_holes s) = player s
  /\ won (update_holes s) = won s
  /\ dead (update_holes s) = dead s
  /\ countdown (update_holes s) = countdown s
  /\ (forall i e, enemies s !! i = Some e ->
                  expiring (holes s) (ex e) (ey e) = false ->
                  enemies (update_holes s) !! i = Some e).
Proof.
  intros Hr Hin Ht Hx Hy.
  destruct (update_holes_frame s) as (Hp & Hw & Hd & Hc & _).
  split; [rewrite Hx, Hy; apply update_holes_expired_tile; assumption|].
  split; [apply update_holes_holes|].
  split; [apply update_holes_expired_gone; assumption|].
  repeat (split; [assumption|]).
  apply update_holes_enemy_kept.
Qed.

(** ** The collision test *)

Lemma update_entities_dead s :
  won s = false -> dead s = false -> countdown s <= 0 ->
  dead (update_entities s) =
  existsb (at_player (collision_point s)) (enemies (collision_point s)).
Proof.
  intros Hw Hd Hc. rewrite update_entities_running by assumption.
  fold (collision_point s). unfold collision_phase.
  destruct (existsb _ _); [reflexivity|].
  unfold collision_point.
  destruct (enemy_phase_frame (player_phase s)) as (_ & _ & _ & _ & -> & _).
  destruct (player_phase_frame s) as (_ & _ & -> & _). exact Hd.
Qed.

Lemma collision_point_off_cadence s :
  enemy_frame_counter s + 1 < ENEMY_MOVE_INTERVAL ->
  enemies (collision_point s) = enemies s
  /\ px (player (collision_point s)) = px (player (fall_player s))
  /\ py (player (collision_point s)) = py (player (fall_player s)).
Proof.
  intros Hcad. unfold collision_point.
  destruct (enemy_phase_frame (player_phase s)) as (_ & -> & _).
  destruct (player_phase_frame s) as (Hen & _ & _ & _ & Hcnt & _ & _ & ->).
  destruct (collect_gold_frame (fall_player s)) as (_ & _ & _ & _ & _ & _ & _ & -> & ->).
  split; [|split; reflexivity].
  rewrite enemy_phase_off_cadence by (rewrite Hcnt; exact Hcad). exact Hen.
Qed.

(** ** Facts about the level *)

Lemma all_cells_spec P :
  all_cells P = true -> forall x y, inb x y = true -> P x y = true.
Proof.
  unfold all_cells. intros H x y Hb.
  apply in_bounds_spec in Hb as [Hy Hx].
  change (len (grid reset)) with 17 in Hy.
  change (len (row0 (grid reset))) with 20 in Hx.
  rewrite forallb_forall in H.
  specialize (H (Z.to_nat y)). rewrite forallb_forall in H.
  specialize (H ltac:(apply in_seq; lia) (Z.to_nat x) ltac:(apply in_seq; lia)).
  rewrite !Z2Nat.id in H by lia. exact H.
Qed.

Lemma rect_reset : rect (grid reset).
Proof. unfold rect. vm_compute. repeat constructor. Qed.

Lemma tile0_oob x y : inb x y = false -> tile0 x y = BRICK.
Proof. apply tile_at_oob. Qed.

Lemma ladder_rows x y : tile0 x y = LADDER -> 3 <= y <= 7.
Proof.
  intros H. destruct (inb x y) eqn:Hb.
  - assert (C : all_cells (fun x y => negb (tile0 x y =? LADDER)
                                      || ((3 <=? y) && (y <=? 7))) = true)
      by (vm_compute; reflexivity).
    pose proof (all_cells_spec _ C x y Hb) as Hc. cbv beta in Hc.
    rewrite H in Hc. simpl in Hc. apply andb_true_iff in Hc. lia.
  - rewrite tile0_oob in H by exact Hb. discriminate.
Qed.

Lemma spawn_column_empty y : 9 <= y <= 15 -> tile0 17 y = EMPTY.
Proof.
  intros Hy.
  assert (y = 9 \/ y = 10 \/ y = 11 \/ y = 12 \/ y = 13 \/ y = 14 \/ y = 15) as H by lia.
  repeat (destruct H as [-> | H]; [vm_compute; reflexivity|]). subst. vm_compute. reflexivity.
Qed.

(** ** The grid and hole invariant *)

Lemma grid_inv_reset : grid_inv (grid reset) (holes reset).
Proof.
  split.
  - exact rect_reset.
  - reflexivity.
  - intros x y. left. reflexivity.
  - intros h [].
  - exact I.
Qed.

Lemma distinct_cells_In l h1 h2 :
  distinct_cells l -> In h1 l -> In h2 l -> h1 <> h2 ->
  inb (hx h1) (hy h1) = true -> ~ (hx h1 = hx h2 /\ hy h1 = hy h2).
Proof.
  induction l as [|h t IH]; simpl; [tauto|].
  intros [Hf Hd] [-> | H1] [-> | H2] Hne Hb.
  - congruence.
  - rewrite Forall_forall in Hf. intros [Ex Ey].
    apply (Hf h2 ltac:(apply list_elem_of_In; exact H2) Hb). auto.
  - rewrite Forall_forall in Hf. intros [Ex Ey].
    apply (Hf h1 ltac:(apply list_elem_of_In; exact H1)); [|auto].
    rewrite <- Ex, <- Ey. exact Hb.
  - auto.
Qed.

Lemma distinct_cells_survivors l : distinct_cells l -> distinct_cells (survivors l).
Proof.
  induction l as [|h t IH]; simpl; [auto|]. intros [Hf Hd].
  unfold survivors. simpl. fold (survivors t).
  destruct (0 <? timer h - 1); [|auto]. simpl. split; [|auto].
  rewrite Forall_forall in Hf |- *. intros h' Hin Hb.
  apply list_elem_of_In, survivors_In in Hin as (h0 & Hin0 & _ & ->). simpl.
  apply Hf; [apply list_elem_of_In; exact Hin0|exact Hb].
Qed.

Lemma distinct_cells_snoc l h :
  distinct_cells l ->
  (forall h', In h' l -> inb (hx h') (hy h') = true ->
              ~ (hx h = hx h' /\ hy h = hy h')) ->
  distinct_cells (l ++ [h]).
Proof.
  induction l as [|a t IH]; simpl.
  - intros _ _. split; [constructor|exact I].
  - intros [Hf Hd] Hnew. split.
    + apply Forall_app. split; [exact Hf|]. constructor; [|constructor].
      intros Hb. apply Hnew; auto.
    + apply IH; auto.
Qed.

Lemma cell_ok_dug cur init :
  cell_ok cur init -> cur = GOLD \/ cur = BRICK -> cell_ok EMPTY init.
Proof.
  unfold cell_ok, EMPTY, GOLD, BRICK. intros [-> | [-> _]] [H | H]; try discriminate;
    right; auto.
Qed.

(** Emptying a gold or brick cell keeps the invariant for the holes already
    recorded. *)
Lemma grid_inv_set_empty g hs x y :
  grid_inv g hs -> tile_at g x y = GOLD \/ tile_at g x y = BRICK ->
  grid_inv (set_tile_at g x y EMPTY) hs.
Proof.
  intros [Hr Hd Hc Hh Hdis] Ht. split.
  - apply rect_set_tile_at, Hr.
  - intros x' y'. rewrite in_bounds_set_tile_at. apply Hd.
  - intros x' y'. rewrite tile_at_set_tile_at by exact Hr.
    destruct (in_bounds g x y && ((x =? x') && (y =? y'))) eqn:E; [|apply Hc].
    rewrite !andb_true_iff, !Z.eqb_eq in E. destruct E as (_ & <- & <-).
    eapply cell_ok_dug; [apply Hc|exact Ht].
  - intros h Hin Hb. destruct (Hh h Hin Hb) as [He H0]. split; [|exact H0].
    rewrite tile_at_set_tile_at_ne; [exact He|].
    intros [= -> ->]. rewrite He in Ht. destruct Ht; discriminate.
  - exact Hdis.
Qed.

Lemma grid_inv_dig g hs x y t :
  grid_inv g hs -> tile_at g x y = BRICK ->
  grid_inv (set_tile_at g x y EMPTY) (hs ++ [mkHole x y t]).
Proof.
  intros Hi Ht. pose proof (grid_inv_set_empty g hs x y Hi (or_intror Ht)) as Hi'.
  destruct Hi as [Hr Hd Hc Hh Hdis]. destruct Hi' as [Hr' Hd' Hc' Hh' _].
  split; try assumption.
  - intros h Hin Hb. apply in_app_or in Hin as [Hin | [<- | []]]; [auto|].
    simpl in *. split.
    + apply tile_at_set_tile_at_eq; [exact Hr|]. rewrite Hd. exact Hb.
    + destruct (Hc x y) as [E | [E _]]; rewrite Ht in E; [auto|discriminate].
  - apply distinct_cells_snoc; [exact Hdis|]. simpl.
    intros h' Hin Hb [Ex Ey]. destruct (Hh h' Hin Hb) as [He _].
    rewrite <- Ex, <- Ey, Ht in He. discriminate.
Qed.

Lemma grid_inv_update_holes s :
  grid_inv (grid s) (holes s) ->
  grid_inv (grid (update_holes s)) (holes (update_holes s)).
Proof.
  intros [Hr Hd Hc Hh Hdis]. rewrite update_holes_holes. split.
  - apply update_holes_rect, Hr.
  - intros x y. unfold update_holes. rewrite holes_loop_in_bounds. apply Hd.
  - intros x y. fold (tile (update_holes s) x y). rewrite update_holes_tile by exact Hr.
    destruct (expiring (holes s) x y) eqn:E; [|apply Hc].
    apply expiring_In in E as (h & Hin & _ & <- & <-).
    destruct (inb (hx h) (hy h)) eqn:Hb.
    + left. symmetry. apply (Hh h Hin Hb).
    + left. symmetry. apply tile0_oob, Hb.
  - intros h' Hin Hb. apply survivors_In in Hin as (h & Hin & Hpos & ->).
    simpl in *. destruct (Hh h Hin Hb) as [He H0]. split; [|exact H0].
    fold (tile (update_holes s) (hx h) (hy h)). rewrite update_holes_tile by exact Hr.
    destruct (expiring (holes s) (hx h) (hy h)) eqn:E; [|exact He].
    apply expiring_In in E as (h1 & Hin1 & Ht1 & Ex & Ey). exfalso.
    apply (distinct_cells_In (holes s) h h1 Hdis Hin Hin1); [|exact Hb|auto].
    intros ->. lia.
  - apply distinct_cells_survivors, Hdis.
Qed.

Lemma grid_inv_collect_gold s :
  grid_inv (grid s) (holes s) ->
  grid_inv (grid (collect_gold s)) (holes (collect_gold s)).
Proof.
  intros Hi. unfold collect_gold.
  destruct (tile s (px (player s)) (py (player s)) =? GOLD) eqn:E; [|exact Hi].
  simpl. apply grid_inv_set_empty; [exact Hi|]. left. apply Z.eqb_eq, E.
Qed.

Lemma grid_inv_dig_game s d :
  grid_inv (grid s) (holes s) -> grid_inv (grid (dig s d)) (holes (dig s d)).
Proof.
  intros Hi. destruct (dig_ok s d) eqn:E.
  - rewrite dig_success by exact E. simpl. apply grid_inv_dig; [exact Hi|].
    unfold dig_ok in E. apply andb_true_iff in E as [E _]. apply Z.eqb_eq, E.
  - rewrite dig_noop by exact E. exact Hi.
Qed.

Lemma grid_inv_player_phase s :
  grid_inv (grid s) (holes s) ->
  grid_inv (grid (player_phase s)) (holes (player_phase s)).
Proof.
  intros Hi. destruct (player_phase_frame s) as (_ & -> & _ & _ & _ & _ & -> & _).
  destruct (collect_gold_frame (fall_player s)) as (_ & Hh & _).
  rewrite <- (proj1 (proj2 (proj2 (fall_player_frame s)))), <- Hh.
  apply grid_inv_collect_gold.
  destruct (fall_player_frame s) as (-> & _ & -> & _). exact Hi.
Qed.

Lemma update_entities_grid_holes s :
  grid_inv (grid s) (holes s) ->
  grid_inv (grid (update_entities s)) (holes (update_entities s)).
Proof.
  intros Hi. unfold update_entities.
  destruct (won s || dead s); [exact Hi|]. destruct (countdown s >? 0); [exact Hi|].
  destruct (collision_phase_frame (enemy_phase (player_phase s)))
    as (-> & _ & _ & -> & _).
  destruct (enemy_phase_frame (player_phase s)) as (-> & _ & -> & _).
  apply grid_inv_player_phase, Hi.
Qed.

Lemma grid_inv_handle_player_move s dx dy :
  grid_inv (grid s) (holes s) ->
  grid_inv (grid (handle_player_move s dx dy)) (holes (handle_player_move s dx dy)).
Proof.
  intros Hi. unfold handle_player_move.
  destruct (won s || dead s || (countdown s >? 0)); [exact Hi|].
  destruct (_ && _ && _); [exact Hi|].
  assert (Hmove : forall s0 ddx ddy,
             grid_inv (grid s0) (holes s0) ->
             grid_inv (grid (move_and_collect s0 ddx ddy))
                      (holes (move_and_collect s0 ddx ddy))).
  { intros s0 ddx ddy H0. unfold move_and_collect, try_move.
    destruct (is_walkable _); [|exact H0].
    apply grid_inv_collect_gold. exact H0. }
  cbv zeta. destruct (negb (dx =? 0)), (negb (dy =? 0)); auto.
Qed.

Lemma grid_inv_step s :
  grid_inv (grid s) (holes s) -> grid_inv (grid (step s)) (holes (step s)).
Proof.
  intros Hi. unfold step. apply update_entities_grid_holes, grid_inv_update_holes.
  destruct (tick_countdown_frame s) as (-> & _ & _ & -> & _). exact Hi.
Qed.

(** ** The single enemy of the level *)

Lemma try_move_enemy_single s e dx dy :
  enemies s = [e] ->
  enemies (fst (try_move_enemy s 0%nat dx dy)) = [e]
  \/ (is_walkable (tile s (ex e + dx) (ey e + dy)) = true
      /\ enemies (fst (try_move_enemy s 0%nat dx dy)) =
         [mkEnemy (ex e + dx) (ey e + dy) (respawn e)]).
Proof.
  intros He. unfold try_move_enemy. rewrite He. simpl.
  destruct (is_walkable (tile s (ex e + dx) (ey e + dy))); simpl; auto.
Qed.

Lemma enemy_turn_single s e :
  enemies s = [e] ->
  exists e', enemies (enemy_turn s 0%nat) = [e'] /\ enemy_moved s e e'.
Proof.
  intros He. unfold enemy_turn. rewrite He. simpl.
  destruct (gravity_applies s (ex e) (ey e)) eqn:G.
  - destruct (try_move_enemy_single s e 0 1 He) as [H | [W H]]; rewrite H.
    + exists e. split; [reflexivity|]. split; auto.
    + eexists. split; [reflexivity|]. split; [reflexivity|]. right. simpl.
      split; [exact W|]. left. split; [exact G|]. split; lia.
  - unfold enemy_ai_step. rewrite He. simpl.
    set (here := tile s (ex e) (ey e)).
    set (up := tile s (ex e) (ey e - 1)).
    set (down := tile s (ex e) (ey e + 1)).
    assert (Hstay : exists e', [e] = [e'] /\ enemy_moved s e e').
    { exists e. split; [reflexivity|]. split; auto. }
    assert (Hh : forall dx, exists e', enemies (fst (try_move_enemy s 0%nat dx 0)) = [e']
                                       /\ enemy_moved s e e').
    { intros dx. destruct (try_move_enemy_single s e dx 0 He) as [H | [W H]]; rewrite H.
      - exact Hstay.
      - eexists. split; [reflexivity|]. split; [reflexivity|]. right. simpl.
        split; [exact W|]. right. split; [exact G|]. right. right. lia. }
    assert (Hdown : exists e', enemies (fst (try_move_enemy s 0%nat 0 1)) = [e']
                               /\ enemy_moved s e e').
    { destruct (try_move_enemy_single s e 0 1 He) as [H | [W H]]; rewrite H.
      - exact Hstay.
      - eexists. split; [reflexivity|]. split; [reflexivity|]. right. simpl.
        split; [exact W|]. right. split; [exact G|]. right. left. lia. }
    destruct ((is_climbable here || is_climbable down || is_climbable up)
              && ((py (player s) <? ey e) && is_walkable up
                  && (is_climbable here || is_climbable up))) eqn:Up.
    + destruct (try_move_enemy_single s e 0 (-1) He) as [H | [W H]]; rewrite H.
      * exact Hstay.
      * eexists. split; [reflexivity|]. split; [reflexivity|]. right. simpl.
        split; [exact W|]. right. split; [exact G|]. left.
        rewrite !andb_true_iff in Up. repeat split; try lia. apply Up.
    + match goal with
      | |- context [if ?c then fst (try_move_enemy s 0%nat 0 1) else _] =>
          destruct c; [exact Hdown|]
      end.
      destruct (py (player s) =? ey e);
        (destruct (px (player s) <? ex e); [apply Hh|]);
        (destruct (px (player s) >? ex e); [apply Hh|]);
        rewrite He; exact Hstay.
Qed.

Lemma enemy_phase_single s e :
  enemies s = [e] ->
  exists e', enemies (enemy_phase s) = [e'] /\ enemy_moved s e e'.
Proof.
  intros He. unfold enemy_phase. simpl.
  destruct (enemy_frame_counter s + 1 >=? ENEMY_MOVE_INTERVAL).
  - rewrite He. simpl.
    destruct (enemy_turn_single
                (with_counter 0 (with_counter (enemy_frame_counter s + 1) s)) e He)
      as (e' & H1 & H2).
    exists e'. split; [exact H1|exact H2].
  - simpl. exists e. split; [exact He|]. split; auto.
Qed.

Lemma cell_ok_ladder s x y :
  (forall x y, cell_ok (tile s x y) (tile0 x y)) ->
  is_climbable (tile s x y) = true -> 3 <= y <= 7.
Proof.
  intros Hc H. apply Z.eqb_eq in H. apply (ladder_rows x).
  destruct (Hc x y) as [E | [E _]]; rewrite H in E; [auto|discriminate].
Qed.

Lemma cell_ok_empty s x y :
  (forall x y, cell_ok (tile s x y) (tile0 x y)) ->
  tile0 x y = EMPTY -> tile s x y = EMPTY.
Proof. intros Hc H. destruct (Hc x y) as [E | [E _]]; congruence. Qed.

Lemma pos_ok_moved s e e' :
  (forall x y, cell_ok (tile s x y) (tile0 x y)) ->
  pos_ok e -> enemy_moved s e e' -> pos_ok e'.
Proof.
  intros Hc Hp [_ [-> | [_ Hm]]]; [exact Hp|]. unfold pos_ok in *.
  destruct Hm as [(_ & Ex & Ey) | (G & Hm)]; [lia|].
  destruct Hp as [[Hx Hy] | Hy].
  - exfalso. rewrite gravity_applies_empty in G; [discriminate| |];
      rewrite Hx; apply cell_ok_empty; auto; apply spawn_column_empty; lia.
  - destruct Hm as [(Ex & Ey & L) | [(Ex & Ey) | Ey]]; [|lia|lia].
    exfalso. apply orb_true_iff in L as [L | L];
      apply (cell_ok_ladder s _ _ Hc) in L; lia.
Qed.

(** ** The invariant of the running program *)

Lemma inv_reset : inv reset.
Proof.
  split.
  - exact grid_inv_reset.
  - exists spawn_enemy. split; [reflexivity|]. split; [reflexivity|].
    left. simpl. lia.
  - reflexivity.
  - vm_compute. discriminate.
  - intros _. repeat split; reflexivity.
  - discriminate.
Qed.

Lemma move_and_collect_frame s dx dy :
  enemies (move_and_collect s dx dy) = enemies s
  /\ holes (move_and_collect s dx dy) = holes s
  /\ won (move_and_collect s dx dy) = won s
  /\ dead (move_and_collect s dx dy) = dead s
  /\ countdown (move_and_collect s dx dy) = countdown s
  /\ enemy_frame_counter (move_and_collect s dx dy) = enemy_frame_counter s
  /\ exit_pos (move_and_collect s dx dy) = exit_pos s.
Proof.
  unfold move_and_collect, try_move. destruct (is_walkable _); [|repeat split].
  match goal with |- context [collect_gold ?s0] =>
    destruct (collect_gold_frame s0) as (-> & -> & -> & -> & -> & -> & -> & _) end.
  repeat split.
Qed.

Lemma handle_player_move_frame s dx dy :
  enemies (handle_player_move s dx dy) = enemies s
  /\ holes (handle_player_move s dx dy) = holes s
  /\ won (handle_player_move s dx dy) = won s
  /\ dead (handle_player_move s dx dy) = dead s
  /\ countdown (handle_player_move s dx dy) = countdown s
  /\ enemy_frame_counter (handle_player_move s dx dy) = enemy_frame_counter s
  /\ exit_pos (handle_player_move s dx dy) = exit_pos s.
Proof.
  unfold handle_player_move.
  destruct (won s || dead s || (countdown s >? 0)); [repeat split|].
  destruct (_ && _ && _); [repeat split|]. cbv zeta.
  destruct (negb (dx =? 0)), (negb (dy =? 0)); try (repeat split; fail).
  - destruct (move_and_collect_frame (move_and_collect s dx 0) 0 dy)
      as (-> & -> & -> & -> & -> & -> & ->).
    apply move_and_collect_frame.
  - apply move_and_collect_frame.
  - apply move_and_collect_frame.
Qed.

Lemma handle_player_move_gated s dx dy :
  won s = true \/ dead s = true \/ 0 < countdown s ->
  handle_player_move s dx dy = s.
Proof.
  intros H. unfold handle_player_move.
  replace (won s || dead s || (countdown s >? 0)) with true; [reflexivity|].
  symmetry. rewrite !orb_true_iff, Z.gtb_ltb, Z.ltb_lt. tauto.
Qed.

Lemma inv_handle_player_move s dx dy : inv s -> inv (handle_player_move s dx dy).
Proof.
  intros [Hg He Hx Hc Hs Hex].
  destruct (handle_player_move_frame s dx dy) as (E1 & E2 & E3 & E4 & E5 & E6 & E7).
  split.
  - apply grid_inv_handle_player_move, Hg.
  - rewrite E1. exact He.
  - rewrite E7. exact Hx.
  - rewrite E5. exact Hc.
  - rewrite E5. intros Hpos. rewrite handle_player_move_gated by auto. auto.
  - rewrite E3, E4. exact Hex.
Qed.

Lemma dig_other_cell s d x y :
  (x, y) <> (px (player s) + d, py (player s) + 1) -> tile (dig s d) x y = tile s x y.
Proof.
  intros Hne. destruct (dig_ok s d) eqn:E.
  - rewrite dig_success by exact E.
    change (tile (with_holes _ ?s1) x y) with (tile s1 x y).
    unfold tile, set_tile. simpl. apply tile_at_set_tile_at_ne. congruence.
  - rewrite dig_noop by exact E. reflexivity.
Qed.

Lemma inv_dig s d : d = -1 \/ d = 1 -> inv s -> inv (dig s d).
Proof.
  intros Hd [Hg He Hx Hc Hs Hex].
  destruct (dig_frame s d) as (E1 & E2 & E3 & E4 & E5 & E6 & E7).
  split.
  - apply grid_inv_dig_game, Hg.
  - rewrite E2. exact He.
  - rewrite E7. exact Hx.
  - rewrite E5. exact Hc.
  - rewrite E1, E2, E3, E4, E5, E6. intros Hpos.
    destruct (Hs Hpos) as (H1 & H2 & H3 & H4 & H5 & H6 & H7).
    repeat (split; [assumption|]).
    rewrite dig_other_cell; [exact H7|]. rewrite H3, H4. intros [= Heq]. lia.
  - rewrite E3, E4. exact Hex.
Qed.

Lemma crush_all_cases l e : crush_all l e = e \/ crush_all l e = relocate e.
Proof.
  destruct (expiring l (ex e) (ey e)) eqn:E.
  - right. apply crush_all_hit, E.
  - left. apply crush_all_miss, E.
Qed.

Lemma tick_countdown_tile s x y : tile (tick_countdown s) x y = tile s x y.
Proof. unfold tile. destruct (tick_countdown_frame s) as (-> & _). reflexivity. Qed.

Lemma tick_countdown_nonneg s : 0 <= countdown s -> 0 <= countdown (tick_countdown s).
Proof.
  rewrite tick_countdown_value. destruct (countdown s >? 0) eqn:E; [|auto].
  rewrite Z.gtb_ltb in E. apply Z.ltb_lt in E. lia.
Qed.

(** The facts of the starting phase carry over to the state that
    [update_entities] receives, also on the tick that ends the countdown. *)
Lemma starting_before_entities s :
  inv s -> 0 < countdown s ->
  won (before_entities s) = false /\ dead (before_entities s) = false
  /\ player (before_entities s) = player s
  /\ enemies (before_entities s) = [spawn_enemy]
  /\ enemy_frame_counter (before_entities s) = 0
  /\ tile (before_entities s) 11 16 = BRICK
  /\ countdown (before_entities s) = countdown s - 1.
Proof.
  intros Hi Hpos. destruct (inv_starting s Hi Hpos) as (H1 & H2 & H3 & H4 & H5 & H6 & H7).
  destruct (before_entities_frame s) as (-> & -> & -> & -> & -> & _).
  rewrite tick_countdown_value.
  replace (countdown s >? 0) with true
    by (symmetry; rewrite Z.gtb_ltb; apply Z.ltb_lt; exact Hpos).
  split; [exact H1|]. split; [exact H2|]. split; [reflexivity|].
  split; [|split; [exact H6|split; [|reflexivity]]].
  - unfold before_entities. rewrite update_holes_enemies.
    destruct (tick_countdown_frame s) as (_ & _ & -> & -> & _). rewrite H5. simpl.
    destruct (crush_all_cases (holes s) spawn_enemy) as [-> | ->]; reflexivity.
  - unfold before_entities. rewrite update_holes_tile.
    + destruct (expiring _ _ _); [reflexivity|]. rewrite tick_countdown_tile. exact H7.
    + destruct (tick_countdown_frame s) as (-> & _). apply (gi_rect _ _ (inv_grid s Hi)).
Qed.

Lemma inv_before_entities s : inv s -> inv (before_entities s).
Proof.
  intros Hi. pose proof Hi as [Hg He Hx Hc Hs Hex].
  destruct (before_entities_frame s) as (E1 & E2 & E3 & E4 & E5 & E6).
  split.
  - unfold before_entities. apply grid_inv_update_holes.
    destruct (tick_countdown_frame s) as (-> & _ & _ & -> & _). exact Hg.
  - unfold before_entities. rewrite update_holes_enemies.
    destruct (tick_countdown_frame s) as (_ & _ & -> & -> & _).
    destruct He as (e & -> & Hr & Hp). simpl.
    exists (crush_all (holes s) e). split; [reflexivity|].
    split; [rewrite crush_all_respawn; exact Hr|].
    destruct (crush_all_cases (holes s) e) as [-> | ->]; [exact Hp|].
    unfold relocate, pos_ok. rewrite Hr. simpl. lia.
  - rewrite E6. exact Hx.
  - rewrite E4. apply tick_countdown_nonneg, Hc.
  - intros Hpos.
    assert (Hpos' : 0 < countdown s).
    { rewrite E4, tick_countdown_value in Hpos.
      destruct (countdown s >? 0) eqn:E; [|exact Hpos].
      rewrite Z.gtb_ltb in E. apply Z.ltb_lt in E. exact E. }
    destruct (starting_before_entities s Hi Hpos') as (H1 & H2 & H3 & H4 & H5 & H6 & _).
    destruct (Hs Hpos') as (_ & _ & P3 & P4 & _).
    rewrite H3. auto 10.
  - rewrite E2, E3. exact Hex.
Qed.

Lemma inv_update_entities s : inv s -> inv (update_entities s).
Proof.
  intros Hi. pose proof Hi as [Hg He Hx Hc Hs Hex].
  destruct (won s) eqn:Hw; [rewrite update_entities_gated by auto; exact Hi|].
  destruct (dead s) eqn:Hd; [rewrite update_entities_gated by auto; exact Hi|].
  destruct (Z.lt_ge_cases 0 (countdown s)) as [Hpos | Hz];
    [rewrite update_entities_gated by auto; exact Hi|].
  pose proof (update_entities_dead s Hw Hd Hz) as Hdead.
  rewrite update_entities_running in * by assumption.
  set (s1 := player_phase s) in *.
  destruct (collision_phase_frame (enemy_phase s1))
    as (C1 & C2 & C3 & C4 & C5 & C6 & C7 & C8).
  destruct (enemy_phase_frame s1) as (F1 & F2 & F3 & F4 & F5 & F6 & F7).
  destruct (player_phase_frame s) as (P1 & P2 & P3 & P4 & P5 & P6 & P7 & P8).
  fold s1 in P1, P2, P3, P4, P5, P6, P7, P8.
  assert (Hg1 : grid_inv (grid s1) (holes s1)) by (apply grid_inv_player_phase, Hg).
  destruct He as (e & He & Hr & Hp).
  destruct (enemy_phase_single s1 e ltac:(congruence)) as (e' & He' & Hm).
  assert (Hp' : pos_ok e').
  { eapply pos_ok_moved; [|exact Hp|exact Hm]. intros x y. apply (gi_cells _ _ Hg1). }
  split.
  - rewrite C1, C4, F1, F3. exact Hg1.
  - rewrite C3, He'. exists e'. split; [reflexivity|]. split; [|exact Hp'].
    rewrite (proj1 Hm). exact Hr.
  - rewrite C8, F7, P6. exact Hx.
  - rewrite C6, F6, P4. exact Hc.
  - rewrite C6, F6, P4. intros Hpos. lia.
  - rewrite C5, F4. intros Hwon Hlost.
    rewrite Hlost in Hdead. symmetry in Hdead.
    unfold collision_point in Hdead. fold s1 in Hdead. rewrite He' in Hdead.
    simpl in Hdead. rewrite orb_false_r in Hdead. unfold at_player in Hdead.
    rewrite F2 in Hdead. apply andb_true_iff in Hdead as [Dx Dy].
    apply Z.eqb_eq in Dx, Dy.
    unfold s1 in Hwon. rewrite player_phase_won, Hw, orb_false_r in Hwon.
    apply andb_true_iff in Hwon as [_ Hat]. unfold player_at_exit in Hat.
    apply andb_true_iff in Hat as [Ax Ay]. apply Z.eqb_eq in Ax, Ay.
    fold (win_point s) in P8. rewrite <- P8 in Ax, Ay.
    assert (Hexit : exit_pos (win_point s) = (13, 11)).
    { unfold win_point.
      destruct (collect_gold_frame (fall_player s)) as (_ & _ & _ & _ & _ & _ & -> & _).
      destruct (fall_player_frame s) as (_ & _ & _ & _ & _ & _ & _ & ->). exact Hx. }
    rewrite Hexit in Ax, Ay. cbn [fst snd] in Ax, Ay.
    unfold pos_ok in Hp'. lia.
Qed.

Lemma inv_step s : inv s -> inv (step s).
Proof. intros Hi. rewrite step_unfold. apply inv_update_entities, inv_before_entities, Hi. Qed.

Lemma inv_event s e : inv s -> inv (apply_event s e).
Proof.
  intros Hi. destruct e; simpl.
  - apply inv_dig; auto.
  - apply inv_dig; auto.
  - apply inv_handle_player_move, Hi.
  - apply inv_handle_player_move, Hi.
  - apply inv_handle_player_move, Hi.
  - apply inv_handle_player_move, Hi.
  - exact inv_reset.
  - apply inv_step, Hi.
Qed.

Lemma reachable_inv s : reachable s -> inv s.
Proof. induction 1; [exact inv_reset|apply inv_event; assumption]. Qed.

Lemma reachable_run s evs : reachable s -> reachable (run s evs).
Proof.
  revert s. induction evs as [|e evs IH]; intros s Hs; simpl; [exact Hs|].
  apply IH. constructor. exact Hs.
Qed.

(** ** Session status *)

(** C1: every state the program can reach is in exactly one of the phases
    Starting(n), Running, Won, Lost; in particular [won] and [dead] are never
    set together. *)
Theorem C1_status_exclusive (s : Game) :
  reachable s ->
  (exists st, in_status s st /\ forall st', in_status s st' -> st' = st)
  /\ ~ (won s = true /\ dead s = true).
Proof.
  intros Hr. apply reachable_inv in Hr. destruct Hr as [_ _ _ Hc Hs Hex].
  split; [|intros [Hw Hd]; exact (Hex Hw Hd)].
  destruct (Z.lt_ge_cases 0 (countdown s)) as [Hpos | Hz].
  - destruct (Hs Hpos) as (Hw & Hd & _).
    exists (Starting (countdown s)). split; [split; [exact Hpos|reflexivity]|].
    intros [n| | |]; simpl.
    + intros [_ <-]. reflexivity.
    + intros [Hle _]. lia.
    + intros H. congruence.
    + intros H. congruence.
  - destruct (won s) eqn:Hw; [|destruct (dead s) eqn:Hd].
    + exists Won. split; [exact Hw|].
      intros [n| | |]; simpl.
      * intros [H1 H2]. lia.
      * intros (_ & H & _). congruence.
      * reflexivity.
      * intros H. exfalso. exact (Hex eq_refl H).
    + exists Lost. split; [exact Hd|].
      intros [n| | |]; simpl.
      * intros [H1 H2]. lia.
      * intros (_ & _ & H). congruence.
      * intros H. congruence.
      * reflexivity.
    + exists Running. split; [simpl; auto|].
      intros [n| | |]; simpl.
      * intros [H1 H2]. lia.
      * reflexivity.
      * intros H. congruence.
      * intros H. congruence.
Qed.

(** The two flags are kept apart by the level, not by [update_entities]:
    started from a state with the enemy on the exit, one tick sets both. *)
Example both_flags_off_level :
  won (step enemy_on_exit) = true /\ dead (step enemy_on_exit) = true.
Proof. split; vm_compute; reflexivity. Qed.

(** ** The starting gate *)

Lemma start_cell_empty : tile0 11 15 = EMPTY.
Proof. reflexivity. Qed.

Lemma step_while_starting s :
  inv s -> 1 < countdown s -> step s = before_entities s.
Proof.
  intros Hi Hc. rewrite step_unfold. apply update_entities_gated. right. right.
  destruct (starting_before_entities s Hi ltac:(lia)) as (_ & _ & _ & _ & _ & _ & ->). lia.
Qed.

Lemma step_ends_starting s :
  inv s -> countdown s = 1 ->
  positions (step s) = positions s
  /\ won (step s) = false /\ dead (step s) = false /\ countdown (step s) = 0.
Proof.
  intros Hi Hc.
  destruct (starting_before_entities s Hi ltac:(lia)) as (H1 & H2 & H3 & H4 & H5 & H6 & H7).
  destruct (inv_starting s Hi ltac:(lia)) as (_ & _ & Px & Py & He & _).
  pose proof (inv_before_entities s Hi) as Hi1.
  rewrite step_unfold. set (s1 := before_entities s) in *.
  assert (Hz : countdown s1 <= 0) by lia.
  assert (Hhere : tile s1 11 15 = EMPTY).
  { apply cell_ok_empty; [|exact start_cell_empty].
    intros x y. apply (gi_cells _ _ (inv_grid s1 Hi1)). }
  assert (Hfall : fall_player s1 = s1).
  { unfold fall_player, gravity_applies. rewrite H3, Px, Py. simpl.
    change (15 + 1) with 16. rewrite Hhere, H6. reflexivity. }
  assert (Hwin : win_point s1 = s1).
  { unfold win_point. rewrite Hfall. unfold collect_gold.
    rewrite H3, Px, Py, Hhere. reflexivity. }
  destruct (collision_point_off_cadence s1) as (Ce & Cx & Cy).
  { rewrite H5. unfold ENEMY_MOVE_INTERVAL. lia. }
  rewrite Hfall in Cx, Cy.
  assert (Hdead : dead (update_entities s1) = false).
  { rewrite update_entities_dead by assumption.
    rewrite Ce, H4. cbn [existsb]. unfold at_player. rewrite Cx, Cy, H3, Px, Py.
    reflexivity. }
  assert (Hwon : won (update_entities s1) = false).
  { rewrite update_entities_won by assumption. rewrite Hwin.
    unfold player_at_exit. rewrite H3, Px, (inv_exit s1 Hi1). cbn [fst].
    change (11 =? 13) with false. rewrite andb_false_l, !andb_false_r. reflexivity. }
  split; [|split; [exact Hwon|split; [exact Hdead|]]].
  - rewrite update_entities_running by assumption. unfold positions.
    destruct (collision_phase_frame (enemy_phase (player_phase s1))) as (_ & -> & -> & _).
    fold (collision_point s1). rewrite Ce, Cx, Cy, H3, H4, He. reflexivity.
  - rewrite update_entities_running by assumption.
    destruct (collision_phase_frame (enemy_phase (player_phase s1)))
      as (_ & _ & _ & _ & _ & -> & _).
    destruct (enemy_phase_frame (player_phase s1)) as (_ & _ & _ & _ & _ & -> & _).
    destruct (player_phase_frame s1) as (_ & _ & _ & -> & _). lia.
Qed.

Lemma positions_while_starting s ev :
  inv s -> 0 < countdown s -> positions (apply_event s ev) = positions s.
Proof.
  intros Hi Hpos.
  destruct (inv_starting s Hi Hpos) as (_ & _ & Px & Py & He & _).
  assert (Hdig : forall d, positions (dig s d) = positions s).
  { intros d. unfold positions. destruct (dig_frame s d) as (-> & -> & _). reflexivity. }
  assert (Hmove : forall dx dy, positions (handle_player_move s dx dy) = positions s).
  { intros dx dy. rewrite handle_player_move_gated by auto. reflexivity. }
  destruct ev; simpl; auto.
  - unfold positions. rewrite Px, Py, He. reflexivity.
  - destruct (Z.eq_dec (countdown s) 1) as [E1 | N1].
    + apply (step_ends_starting s Hi E1).
    + rewrite step_while_starting by (assumption || lia).
      destruct (starting_before_entities s Hi Hpos) as (_ & _ & H3 & H4 & _).
      unfold positions. rewrite H3, H4, He. reflexivity.
Qed.

(** C7: while the status is Starting(n), no event of the main loop (a move
    or dig request, or a tick) changes the coordinates of the player or of an
    enemy, and move requests leave the whole state untouched; each tick takes
    n to n - 1, and the tick that brings it to 0 leaves the status Running. *)
Theorem C7_starting_gate (s : Game) :
  reachable s -> 0 < countdown s ->
  (forall dx dy, handle_player_move s dx dy = s)
  /\ (forall ev, positions (apply_event s ev) = positions s)
  /\ countdown (step s) = countdown s - 1
  /\ (1 < countdown s -> in_status (step s) (Starting (countdown s - 1)))
  /\ (countdown s = 1 -> in_status (step s) Running).
Proof.
  intros Hr Hpos. apply reachable_inv in Hr.
  split; [intros dx dy; apply handle_player_move_gated; auto|].
  split; [intros ev; apply positions_while_starting; assumption|].
  assert (Hstart : 1 < countdown s -> countdown (step s) = countdown s - 1).
  { intros H. rewrite step_while_starting by assumption.
    apply (starting_before_entities s Hr Hpos). }
  split; [|split].
  - destruct (Z.eq_dec (countdown s) 1) as [E1 | N1].
    + destruct (step_ends_starting s Hr E1) as (_ & _ & _ & ->). lia.
    + apply Hstart. lia.
  - intros H. simpl. split; [lia|]. apply Hstart, H.
  - intros E1. destruct (step_ends_starting s Hr E1) as (_ & Hw & Hd & Hc).
    simpl. split; [lia|auto].
Qed.

(** ** Collision on a running tick *)

Lemma before_entities_running s :
  countdown s <= 1 -> countdown (before_entities s) <= 0.
Proof.
  intros H. destruct (before_entities_frame s) as (_ & _ & _ & -> & _).
  rewrite tick_countdown_value. destruct (countdown s >? 0) eqn:E; [lia|].
  rewrite Z.gtb_ltb in E. apply Z.ltb_ge in E. exact E.
Qed.

Lemma existsb_at_player s l :
  existsb (at_player s) l = true <->
  exists e, In e l /\ ex e = px (player s) /\ ey e = py (player s).
Proof.
  rewrite existsb_exists. unfold at_player.
  split; intros (e & Hin & H); exists e; (split; [exact Hin|]).
  - apply andb_true_iff in H. rewrite !Z.eqb_eq in H. exact H.
  - apply andb_true_iff. rewrite !Z.eqb_eq. exact H.
Qed.

(** C8: on a tick processed with the status Running, [dead] is set exactly
    when some enemy shares the player's cell at the collision scan; the scan
    also runs on ticks where the cadence counter keeps the enemies still, so
    an enemy standing on the player's cell (after the player's gravity step)
    ends the game on that tick; in the running program the status is then
    Lost and not Won. *)
Theorem C8_collision (s : Game) :
  won s = false -> dead s = false -> countdown s <= 1 ->
  (dead (step s) = true <->
   exists e, In e (enemies (collision_point (before_entities s)))
             /\ ex e = px (player (collision_point (before_entities s)))
             /\ ey e = py (player (collision_point (before_entities s))))
  /\ (enemy_frame_counter s + 1 < ENEMY_MOVE_INTERVAL ->
      forall e, In e (enemies (before_entities s)) ->
                ex e = px (player (fall_player (before_entities s))) ->
                ey e = py (player (fall_player (before_entities s))) ->
                dead (step s) = true)
  /\ (reachable s -> dead (step s) = true ->
      in_status (step s) Lost /\ won (step s) = false).
Proof.
  intros Hw Hd Hc.
  destruct (before_entities_frame s) as (_ & Hw1 & Hd1 & _ & Hn1 & _).
  pose proof (before_entities_running s Hc) as Hc1.
  assert (Hdead : dead (step s) =
                  existsb (at_player (collision_point (before_entities s)))
                          (enemies (collision_point (before_entities s)))).
  { rewrite step_unfold. apply update_entities_dead; congruence. }
  split; [|split].
  - rewrite Hdead. apply existsb_at_player.
  - intros Hcad e Hin Ex Ey. rewrite Hdead. apply existsb_at_player.
    destruct (collision_point_off_cadence (before_entities s)) as (Ce & Cx & Cy).
    { rewrite Hn1. exact Hcad. }
    exists e. rewrite Ce, Cx, Cy. auto.
  - intros Hr Hl. split; [exact Hl|].
    pose proof (reachable_inv (step s) (reach_event s Tick Hr)) as Hi.
    destruct (won (step s)) eqn:E; [|reflexivity].
    exfalso. exact (inv_excl _ Hi E Hl).
Qed.

(** ** The life of a hole *)

Lemma update_entities_holes s : holes (update_entities s) = holes s.
Proof.
  unfold update_entities. destruct (won s || dead s); [reflexivity|].
  destruct (countdown s >? 0); [reflexivity|].
  destruct (collision_phase_frame (enemy_phase (player_phase s))) as (_ & _ & _ & -> & _).
  destruct (enemy_phase_frame (player_phase s)) as (_ & _ & -> & _).
  apply (player_phase_frame s).
Qed.

Lemma update_entities_rect s : rect (grid s) -> rect (grid (update_entities s)).
Proof.
  intros Hr. unfold update_entities. destruct (won s || dead s); [exact Hr|].
  destruct (countdown s >? 0); [exact Hr|].
  destruct (collision_phase_frame (enemy_phase (player_phase s))) as (-> & _).
  destruct (enemy_phase_frame (player_phase s)) as (-> & _).
  apply player_phase_rect, Hr.
Qed.

(** [update_entities] writes the grid only where the player picks up gold. *)
Lemma update_entities_tile s x y :
  rect (grid s) -> tile s x y <> GOLD -> tile (update_entities s) x y = tile s x y.
Proof.
  intros Hr Hne. unfold update_entities. destruct (won s || dead s); [reflexivity|].
  destruct (countdown s >? 0); [reflexivity|].
  unfold tile at 1.
  destruct (collision_phase_frame (enemy_phase (player_phase s))) as (-> & _).
  destruct (enemy_phase_frame (player_phase s)) as (-> & _).
  fold (tile (player_phase s) x y). rewrite player_phase_tile by exact Hr.
  apply Z.eqb_neq in Hne. rewrite Hne. reflexivity.
Qed.

Lemma step_holes s : holes (step s) = survivors (holes s).
Proof.
  unfold step. rewrite update_entities_holes, update_holes_holes.
  destruct (tick_countdown_frame s) as (_ & _ & _ & -> & _). reflexivity.
Qed.

Lemma step_rect s : rect (grid s) -> rect (grid (step s)).
Proof.
  intros Hr. unfold step. apply update_entities_rect, update_holes_rect.
  destruct (tick_countdown_frame s) as (-> & _). exact Hr.
Qed.

Lemma step_expired_tile s h :
  rect (grid s) -> In h (holes s) -> timer h <= 1 ->
  tile (step s) (hx h) (hy h) = BRICK.
Proof.
  intros Hr Hin Ht.
  assert (Hr0 : rect (grid (tick_countdown s)))
    by (destruct (tick_countdown_frame s) as (-> & _); exact Hr).
  assert (Hb : tile (update_holes (tick_countdown s)) (hx h) (hy h) = BRICK).
  { apply update_holes_expired_tile; [exact Hr0| |exact Ht].
    destruct (tick_countdown_frame s) as (_ & _ & _ & -> & _). exact Hin. }
  unfold step. rewrite update_entities_tile; [exact Hb| |].
  - apply update_holes_rect, Hr0.
  - rewrite Hb. discriminate.
Qed.

Lemma steps_holes k s : holes (Nat.iter k step s) = Nat.iter k survivors (holes s).
Proof. induction k as [|k IH]; simpl; [reflexivity|]. rewrite step_holes, IH. reflexivity. Qed.

Lemma steps_rect k s : rect (grid s) -> rect (grid (Nat.iter k step s)).
Proof. intros Hr. induction k as [|k IH]; simpl; [exact Hr|]. apply step_rect, IH. Qed.

(** A hole with [t] ticks left is still recorded, with [t - k] left, after
    [k < t] ticks. *)
Lemma survivors_fresh k l x y t :
  Z.of_nat k < t ->
  Nat.iter k survivors (l ++ [mkHole x y t]) =
  Nat.iter k survivors l ++ [mkHole x y (t - Z.of_nat k)].
Proof.
  induction k as [|k IH]; intros Hk.
  - simpl. rewrite Z.sub_0_r. reflexivity.
  - simpl Nat.iter. rewrite IH by lia. rewrite survivors_app. f_equal.
    unfold survivors. simpl.
    replace (0 <? t - Z.of_nat k - 1) with true by (symmetry; apply Z.ltb_lt; lia).
    unfold tick_hole. simpl. do 2 f_equal. lia.
Qed.

Lemma survivors_last l x y : survivors (l ++ [mkHole x y 1]) = survivors l.
Proof. rewrite survivors_app. unfold survivors at 2. simpl. apply app_nil_r. Qed.

(** ** No enemy inside solid terrain *)

Lemma collect_gold_not_brick s x y :
  rect (grid s) -> tile s x y <> BRICK -> tile (collect_gold s) x y <> BRICK.
Proof.
  intros Hr Hne. rewrite collect_gold_tile by exact Hr.
  destruct (_ && _); [discriminate|exact Hne].
Qed.

Lemma move_and_collect_not_brick s dx dy x y :
  rect (grid s) -> tile s x y <> BRICK ->
  rect (grid (move_and_collect s dx dy))
  /\ tile (move_and_collect s dx dy) x y <> BRICK.
Proof.
  intros Hr Hne. unfold move_and_collect, try_move.
  destruct (is_walkable _); [|auto].
  split; [apply collect_gold_rect; exact Hr|apply collect_gold_not_brick; assumption].
Qed.

Lemma handle_player_move_not_brick s dx dy x y :
  rect (grid s) -> tile s x y <> BRICK -> tile (handle_player_move s dx dy) x y <> BRICK.
Proof.
  intros Hr Hne. unfold handle_player_move.
  destruct (won s || dead s || (countdown s >? 0)); [exact Hne|].
  destruct (_ && _ && _); [exact Hne|]. cbv zeta.
  destruct (negb (dx =? 0)), (negb (dy =? 0)); try exact Hne.
  - destruct (move_and_collect_not_brick s dx 0 x y Hr Hne) as [Hr1 Hne1].
    apply move_and_collect_not_brick; assumption.
  - apply move_and_collect_not_brick; assumption.
  - apply move_and_collect_not_brick; assumption.
Qed.

Lemma dig_not_brick s d x y :
  rect (grid s) -> tile s x y <> BRICK -> tile (dig s d) x y <> BRICK.
Proof.
  intros Hr Hne. destruct (dig_ok s d) eqn:E.
  - rewrite dig_success by exact E.
    change (tile (with_holes _ ?s1) x y) with (tile s1 x y).
    rewrite tile_set_tile by exact Hr. destruct (_ && _); [discriminate|exact Hne].
  - rewrite dig_noop by exact E. exact Hne.
Qed.

Lemma is_walkable_not_brick t : is_walkable t = true -> t <> BRICK.
Proof. intros H ->. discriminate. Qed.

Lemma enemy_free_before_entities s :
  inv s -> enemy_free s -> enemy_free (before_entities s).
Proof.
  intros Hi Hf. pose proof (inv_before_entities s Hi) as Hi1.
  destruct (inv_enemy s Hi) as (e0 & He0 & Hresp & _).
  assert (Hr : rect (grid (tick_countdown s))).
  { destruct (tick_countdown_frame s) as (-> & _). apply (gi_rect _ _ (inv_grid s Hi)). }
  intros e Hin. unfold before_entities in Hin. rewrite update_holes_enemies in Hin.
  destruct (tick_countdown_frame s) as (_ & _ & Et & Eh & _).
  rewrite Et, Eh, He0 in Hin. simpl in Hin. destruct Hin as [<- | []].
  destruct (expiring (holes s) (ex e0) (ey e0)) eqn:E.
  - rewrite crush_all_hit by exact E. unfold relocate. rewrite Hresp. simpl.
    rewrite (cell_ok_empty (before_entities s) 17 9); [discriminate| |].
    + intros x y. apply (gi_cells _ _ (inv_grid _ Hi1)).
    + apply spawn_column_empty. lia.
  - rewrite crush_all_miss by exact E. unfold before_entities.
    rewrite update_holes_tile by exact Hr. rewrite Eh, E, tick_countdown_tile.
    apply Hf. rewrite He0. left. reflexivity.
Qed.

Lemma enemy_free_update_entities s :
  inv s -> enemy_free s -> enemy_free (update_entities s).
Proof.
  intros Hi Hf. pose proof (gi_rect _ _ (inv_grid s Hi)) as Hr.
  destruct (won s) eqn:Hw; [rewrite update_entities_gated by auto; exact Hf|].
  destruct (dead s) eqn:Hd; [rewrite update_entities_gated by auto; exact Hf|].
  destruct (Z.lt_ge_cases 0 (countdown s)) as [Hpos | Hz];
    [rewrite update_entities_gated by auto; exact Hf|].
  rewrite update_entities_running by assumption.
  destruct (inv_enemy s Hi) as (e0 & He0 & _).
  destruct (player_phase_frame s) as (P1 & _).
  destruct (enemy_phase_single (player_phase s) e0 ltac:(congruence)) as (e' & He' & Hm).
  intros e Hin. unfold tile.
  destruct (collision_phase_frame (enemy_phase (player_phase s))) as (C1 & _ & C3 & _).
  destruct (enemy_phase_frame (player_phase s)) as (F1 & _).
  rewrite C1, F1. rewrite C3, He' in Hin. destruct Hin as [<- | []].
  fold (tile (player_phase s) (ex e') (ey e')).
  destruct Hm as [_ [-> | [W _]]].
  - rewrite player_phase_tile by exact Hr. destruct (_ && _); [discriminate|].
    apply Hf. rewrite He0. left. reflexivity.
  - apply is_walkable_not_brick, W.
Qed.

Lemma reachable_enemy_free s : reachable s -> enemy_free s.
Proof.
  induction 1 as [|s ev Hs IH].
  - intros e [<- | []]. vm_compute. discriminate.
  - pose proof (reachable_inv s Hs) as Hi.
    pose proof (gi_rect _ _ (inv_grid s Hi)) as Hr.
    destruct ev; simpl.
    + intros e Hin. destruct (dig_frame s (-1)) as (_ & Ee & _). rewrite Ee in Hin.
      apply dig_not_brick; auto.
    + intros e Hin. destruct (dig_frame s 1) as (_ & Ee & _). rewrite Ee in Hin.
      apply dig_not_brick; auto.
    + intros e Hin. destruct (handle_player_move_frame s (-1) 0) as (Ee & _).
      rewrite Ee in Hin. apply handle_player_move_not_brick; auto.
    + intros e Hin. destruct (handle_player_move_frame s 1 0) as (Ee & _).
      rewrite Ee in Hin. apply handle_player_move_not_brick; auto.
    + intros e Hin. destruct (handle_player_move_frame s 0 (-1)) as (Ee & _).
      rewrite Ee in Hin. apply handle_player_move_not_brick; auto.
    + intros e Hin. destruct (handle_player_move_frame s 0 1) as (Ee & _).
      rewrite Ee in Hin. apply handle_player_move_not_brick; auto.
    + intros e [<- | []]. vm_compute. discriminate.
    + rewrite step_unfold. apply enemy_free_update_entities.
      * apply inv_before_entities, Hi.
      * apply enemy_free_before_entities; assumption.
Qed.

Lemma reachable_steps k s : reachable s -> reachable (Nat.iter k step s).
Proof.
  intros Hs. induction k as [|k IH]; simpl; [exact Hs|].
  exact (reach_event _ Tick IH).
Qed.

Lemma reachable_dig s d : d = -1 \/ d = 1 -> reachable s -> reachable (dig s d).
Proof.
  intros [-> | ->] Hs; [exact (reach_event s DigLeft Hs)|exact (reach_event s DigRight Hs)].
Qed.

Lemma before_entities_crushed s h i e :
  In h (holes s) -> timer h <= 1 ->
  enemies s !! i = Some e -> ex e = hx h -> ey e = hy h ->
  enemies (before_entities s) !! i = Some (relocate e).
Proof.
  intros Hin Ht He Ex Ey. unfold before_entities.
  destruct (tick_countdown_frame s) as (_ & _ & Ee & Eh & _).
  apply update_holes_enemy_crushed; [rewrite Ee; exact He|].
  rewrite Eh. apply expiring_In. exists h. auto.
Qed.

Lemma dig_hole_aging s d k :
  dig_ok s d = true -> Z.of_nat k < HOLE_REGEN_FRAMES ->
  holes (Nat.iter k step (dig s d)) =
  Nat.iter k survivors (holes s)
  ++ [mkHole (px (player s) + d) (py (player s) + 1) (HOLE_REGEN_FRAMES - Z.of_nat k)].
Proof.
  intros Hok Hlt. rewrite steps_holes, dig_success by exact Hok. simpl holes.
  apply survivors_fresh. exact Hlt.
Qed.

Lemma dig_hole_closes s d n :
  rect (grid s) -> dig_ok s d = true -> Z.of_nat (S n) = HOLE_REGEN_FRAMES ->
  holes (Nat.iter (S n) step (dig s d)) = Nat.iter (S n) survivors (holes s)
  /\ tile (Nat.iter (S n) step (dig s d)) (px (player s) + d) (py (player s) + 1) = BRICK.
Proof.
  intros Hr Hok Hn. simpl Nat.iter.
  pose proof (dig_hole_aging s d n Hok ltac:(lia)) as Hprev.
  replace (HOLE_REGEN_FRAMES - Z.of_nat n) with 1 in Hprev by lia.
  split.
  - rewrite step_holes, Hprev. apply survivors_last.
  - apply (step_expired_tile _ (mkHole (px (player s) + d) (py (player s) + 1) 1)).
    + apply steps_rect, dig_rect, Hr.
    + rewrite Hprev. apply in_or_app. right. left. reflexivity.
    + simpl. lia.
Qed.

Lemma dig_lifecycle s d :
  rect (grid s) -> dig_ok s d = true ->
  (forall k, (k < 240)%nat ->
             holes (Nat.iter k step (dig s d)) =
             Nat.iter k survivors (holes s)
             ++ [mkHole (px (player s) + d) (py (player s) + 1)
                        (HOLE_REGEN_FRAMES - Z.of_nat k)])
  /\ holes (Nat.iter 240 step (dig s d)) = Nat.iter 240 survivors (holes s)
  /\ tile (Nat.iter 240 step (dig s d)) (px (player s) + d) (py (player s) + 1) = BRICK.
Proof.
  intros Hr Hok. split.
  - intros k Hlt. apply dig_hole_aging; [exact Hok|].
    apply Nat2Z.inj_lt in Hlt. exact Hlt.
  - exact (dig_hole_closes s d 239 Hr Hok eq_refl).
Qed.

Lemma dig_hole_open s d k :
  reachable s -> d = -1 \/ d = 1 -> dig_ok s d = true ->
  in_bounds (grid s) (px (player s) + d) (py (player s) + 1) = true -> (k < 240)%nat ->
  tile (Nat.iter k step (dig s d)) (px (player s) + d) (py (player s) + 1) = EMPTY.
Proof.
  intros Hs Hd Hok Hb Hk.
  pose proof (reachable_inv s Hs) as Hi.
  rewrite (gi_dims _ _ (inv_grid s Hi)) in Hb.
  destruct (dig_lifecycle s d (gi_rect _ _ (inv_grid s Hi)) Hok) as (Hholes & _).
  pose proof (reachable_inv _ (reachable_steps k _ (reachable_dig s d Hd Hs))) as Hik.
  apply (gi_holes _ _ (inv_grid _ Hik)
           (mkHole (px (player s) + d) (py (player s) + 1)
                   (HOLE_REGEN_FRAMES - Z.of_nat k))).
  - rewrite Hholes by exact Hk. apply in_or_app. right. left. reflexivity.
  - exact Hb.
Qed.

(** C4: every tick decrements the timer of every hole and drops the holes
    whose timer thereby reaches zero; on that tick the cell reads [BRICK]
    again and every enemy that stood on it has been moved to its respawn
    coordinate.  A hole dug with [HOLE_REGEN_FRAMES] = 240 is recorded with
    240 - k ticks left after k < 240 ticks (its cell, when inside the grid of
    the running program, still [EMPTY]), and after exactly 240 ticks it is
    gone and the cell reads [BRICK].  In the running program no enemy ever
    stands on a [BRICK] cell. *)
Theorem C4_hole_regeneration :
  (forall s, holes (step s) = survivors (holes s))
  /\ (forall s h',
        In h' (holes (step s)) <->
        exists h, In h (holes s) /\ 1 < timer h /\ h' = tick_hole h)
  /\ (forall s h,
        rect (grid s) -> In h (holes s) -> timer h <= 1 ->
        tile (step s) (hx h) (hy h) = BRICK
        /\ ~ In (tick_hole h) (holes (step s))
        /\ (forall i e, enemies s !! i = Some e -> ex e = hx h -> ey e = hy h ->
                        enemies (before_entities s) !! i = Some (relocate e)))
  /\ (forall s d,
        rect (grid s) -> dig_ok s d = true ->
        (forall k, (k < 240)%nat ->
                   holes (Nat.iter k step (dig s d)) =
                   Nat.iter k survivors (holes s)
                   ++ [mkHole (px (player s) + d) (py (player s) + 1)
                              (HOLE_REGEN_FRAMES - Z.of_nat k)])
        /\ holes (Nat.iter 240 step (dig s d)) = Nat.iter 240 survivors (holes s)
        /\ tile (Nat.iter 240 step (dig s d))
                (px (player s) + d) (py (player s) + 1) = BRICK)
  /\ (forall s d k,
        reachable s -> d = -1 \/ d = 1 -> dig_ok s d = true ->
        in_bounds (grid s) (px (player s) + d) (py (player s) + 1) = true ->
        (k < 240)%nat ->
        tile (Nat.iter k step (dig s d))
             (px (player s) + d) (py (player s) + 1) = EMPTY)
  /\ (forall s e, reachable s -> In e (enemies s) -> tile s (ex e) (ey e) <> BRICK).
Proof.
  split; [exact step_holes|].
  split; [intros s h'; rewrite step_holes; apply survivors_In|].
  split.
  { intros s h Hr Hin Ht. split; [apply step_expired_tile; assumption|].
    split.
    - rewrite step_holes. intros H. apply survivors_In in H as (h0 & _ & Hpos & Heq).
      apply (f_equal timer) in Heq. simpl in Heq. lia.
    - intros i e. apply before_entities_crushed; assumption. }
  split; [exact dig_lifecycle|].
  split; [exact dig_hole_open|].
  intros s e Hs. apply reachable_enemy_free, Hs.
Qed.

(** ** Holes and the grid *)

(** Inside the grid the hole records are sound: each sits on a cell that is
    [EMPTY] now and was [BRICK] in the level, and no two share a cell. *)
Lemma holes_inside_grid s :
  reachable s ->
  (forall h, In h (holes s) -> in_bounds (grid s) (hx h) (hy h) = true ->
             tile s (hx h) (hy h) = EMPTY /\ tile0 (hx h) (hy h) = BRICK)
  /\ distinct_cells (holes s).
Proof.
  intros Hs. apply reachable_inv in Hs. destruct (inv_grid s Hs) as [_ Hd _ Hh Hdis].
  split; [|exact Hdis]. intros h Hin Hb. apply Hh; [exact Hin|].
  rewrite <- Hd. exact Hb.
Qed.

(** C2 fails on the program: from the bottom row [dig] targets a cell below
    the grid, which reads [BRICK]; [set_tile] ignores it but a hole is
    recorded all the same, and a second dig records the same cell again. *)
Theorem C2_hole_below_grid :
  let s := run reset (below_floor ++ [DigLeft; DigLeft]) in
  reachable s
  /\ holes s = [mkHole 10 16 239; mkHole 11 16 239; mkHole 10 17 240; mkHole 10 17 240]
  /\ in_bounds (grid s) 10 17 = false
  /\ tile s 10 17 = BRICK.
Proof.
  split; [apply reachable_run, reach_reset|].
  split; [vm_compute; reflexivity|].
  split; vm_compute; reflexivity.
Qed.

(** C3 fails on the program, by the same missed case as C2: with the player
    on the bottom row at (11,16), a direction in {-1, +1}, the target (10,17)
    reading [BRICK] and the side cell (10,16) walkable, [dig] appends the
    hole, yet the target cell is not set to [EMPTY]: it lies below the grid,
    [set_tile] ignores it, and it still reads [BRICK].  So the two effects
    the claim ties to the preconditions do not both happen. *)
Theorem C3_dig_below_grid :
  let s := run reset below_floor in
  reachable s
  /\ (px (player s), py (player s)) = (11, 16)
  /\ in_bounds (grid s) 10 17 = false
  /\ tile s 10 17 = BRICK
  /\ is_walkable (tile s 10 16) = true
  /\ holes (dig s (-1)) = holes s ++ [mkHole 10 17 HOLE_REGEN_FRAMES]
  /\ grid (dig s (-1)) = grid s
  /\ tile (dig s (-1)) 10 17 = BRICK
  /\ ~ ((tile (dig s (-1)) 10 17 = EMPTY
         /\ holes (dig s (-1)) = holes s ++ [mkHole 10 17 HOLE_REGEN_FRAMES])
        <-> (tile s 10 17 = BRICK /\ is_walkable (tile s 10 16) = true)).
Proof.
  split; [apply reachable_run, reach_reset|].
  split; [vm_compute; reflexivity|].
  split; [vm_compute; reflexivity|].
  split; [vm_compute; reflexivity|].
  split; [vm_compute; reflexivity|].
  split; [vm_compute; reflexivity|].
  split; [vm_compute; reflexivity|].
  split; [vm_compute; reflexivity|].
  intros [_ H].
  assert (E : tile (dig (run reset below_floor) (-1)) 10 17 = EMPTY).
  { apply H. split; vm_compute; reflexivity. }
  vm_compute in E. discriminate.
Qed.

(** ** The level parser *)

Lemma parse_char_row x y ch r acc :
  fst (parse_char x y ch (r, acc)) = r ++ [tile_of_char ch].
Proof.
  destruct acc as [[ps ep] golds]. unfold parse_char, tile_of_char.
  destruct (Ascii.eqb ch ".") eqn:E1.
  { apply Ascii.eqb_eq in E1. subst. reflexivity. }
  destruct (Ascii.eqb ch "#"); [reflexivity|].
  destruct (Ascii.eqb ch "H"); [reflexivity|].
  destruct (Ascii.eqb ch "="); [reflexivity|].
  destruct (Ascii.eqb ch "G"); [reflexivity|].
  destruct (Ascii.eqb ch "P") eqn:E6.
  { apply Ascii.eqb_eq in E6. subst. reflexivity. }
  destruct (Ascii.eqb ch "E"); reflexivity.
Qed.

Lemma parse_row_row x y row r acc :
  fst (parse_row x y row (r, acc)) = r ++ List.map tile_of_char row.
Proof.
  revert x r acc. induction row as [|ch row IH]; intros x r acc; cbn [parse_row List.map].
  - rewrite app_nil_r. reflexivity.
  - destruct (parse_char x y ch (r, acc)) as [r' acc'] eqn:E.
    rewrite IH. pose proof (parse_char_row x y ch r acc) as H. rewrite E in H.
    simpl in H. rewrite H, <- app_assoc. reflexivity.
Qed.

Lemma parse_rows_grid y lines p :
  p_grid (parse_rows y lines p) = p_grid p ++ legend_grid lines.
Proof.
  revert y p. induction lines as [|line lines IH]; intros y p;
    cbn [parse_rows legend_grid List.map].
  - rewrite app_nil_r. reflexivity.
  - pose proof (parse_row_row 0 y (list_ascii_of_string line) []
                  (p_player_start p, p_exit_pos p, p_gold_positions p)) as H.
    destruct (parse_row 0 y (list_ascii_of_string line)
                ([], (p_player_start p, p_exit_pos p, p_gold_positions p)))
      as [r [[ps ep] golds]].
    cbn [fst app] in H. rewrite IH. cbn [p_grid]. rewrite H, <- app_assoc. reflexivity.
Qed.

Lemma parse_level_grid lines : p_grid (parse_level lines) = legend_grid lines.
Proof. unfold parse_level. rewrite parse_rows_grid. reflexivity. Qed.

Lemma tile_of_char_range ch : 0 <= tile_of_char ch <= 5.
Proof.
  unfold tile_of_char, BRICK, LADDER, ROPE, GOLD, EXIT, EMPTY.
  repeat match goal with |- context [if ?c then _ else _] => destruct c end; lia.
Qed.

Lemma length_list_ascii s : length (list_ascii_of_string s) = String.length s.
Proof. induction s; simpl; auto. Qed.

Lemma parse_char_acc x y ch r ps ep golds :
  snd (parse_char x y ch (r, (ps, ep, golds))) =
  (if Ascii.eqb ch "P" then (x, y) else ps,
   if Ascii.eqb ch "E" then (x, y) else ep,
   golds ++ (if Ascii.eqb ch "G" then [(x, y)] else [])).
Proof.
  unfold parse_char.
  destruct (Ascii.eqb ch ".") eqn:E1.
  { apply Ascii.eqb_eq in E1. subst. simpl. rewrite app_nil_r. reflexivity. }
  destruct (Ascii.eqb ch "#") eqn:E2.
  { apply Ascii.eqb_eq in E2. subst. simpl. rewrite app_nil_r. reflexivity. }
  destruct (Ascii.eqb ch "H") eqn:E3.
  { apply Ascii.eqb_eq in E3. subst. simpl. rewrite app_nil_r. reflexivity. }
  destruct (Ascii.eqb ch "=") eqn:E4.
  { apply Ascii.eqb_eq in E4. subst. simpl. rewrite app_nil_r. reflexivity. }
  destruct (Ascii.eqb ch "G") eqn:E5.
  { apply Ascii.eqb_eq in E5. subst. reflexivity. }
  destruct (Ascii.eqb ch "P") eqn:E6.
  { apply Ascii.eqb_eq in E6. subst. simpl. rewrite app_nil_r. reflexivity. }
  destruct (Ascii.eqb ch "E"); simpl; rewrite app_nil_r; reflexivity.
Qed.

Lemma marker_row_cons c ch rest x y v v' :
  marker_row c rest (x + 1) y (if Ascii.eqb ch c then (x, y) else v) v' ->
  marker_row c (ch :: rest) x y v v'.
Proof.
  intros [[Hv Hn] | (i & Hi & Hv & Hl)].
  - destruct (Ascii.eqb ch c) eqn:E.
    + apply Ascii.eqb_eq in E. subst ch. right. exists 0%nat.
      split; [reflexivity|]. split; [rewrite Hv; f_equal; lia|].
      intros [|j] Hj; [lia|]. apply Hn.
    + left. split; [exact Hv|]. intros [|i]; simpl; [|apply Hn].
      intros [= ->]. rewrite Ascii.eqb_refl in E. discriminate.
  - right. exists (S i). split; [exact Hi|]. split; [rewrite Hv; f_equal; lia|].
    intros [|j] Hj; [lia|]. apply Hl. lia.
Qed.

Lemma parse_row_acc x y row r ps ep golds :
  exists ps' ep',
    snd (parse_row x y row (r, (ps, ep, golds))) =
      (ps', ep', golds ++ golds_in_row x y row)
    /\ marker_row "P" row x y ps ps' /\ marker_row "E" row x y ep ep'.
Proof.
  revert x r ps ep golds.
  induction row as [|ch row IH]; intros x r ps ep golds; cbn [parse_row golds_in_row].
  - exists ps, ep. rewrite app_nil_r. split; [reflexivity|].
    split; left; (split; [reflexivity|]); intros i; destruct i; discriminate.
  - pose proof (parse_char_acc x y ch r ps ep golds) as Hc.
    destruct (parse_char x y ch (r, (ps, ep, golds))) as [r1 [[ps1 ep1] g1]].
    cbn [snd] in Hc. injection Hc as -> -> ->.
    destruct (IH (x + 1) r1 (if Ascii.eqb ch "P" then (x, y) else ps)
                 (if Ascii.eqb ch "E" then (x, y) else ep)
                 (golds ++ (if Ascii.eqb ch "G" then [(x, y)] else [])))
      as (ps' & ep' & Heq & HP & HE).
    exists ps', ep'. rewrite Heq, <- app_assoc.
    split; [reflexivity|]. split; apply marker_row_cons; assumption.
Qed.

Lemma golds_in_row_In x y row a b :
  In (a, b) (golds_in_row x y row) <->
  b = y /\ exists i, row !! i = Some "G"%char /\ a = x + Z.of_nat i.
Proof.
  revert x. induction row as [|ch row IH]; intros x; cbn [golds_in_row].
  - split; [intros []|]. intros (_ & i & Hi & _). destruct i; discriminate.
  - rewrite in_app_iff, IH. split.
    + intros [H | (Hb & i & Hi & Ha)].
      * destruct (Ascii.eqb ch "G") eqn:E; [|destruct H].
        apply Ascii.eqb_eq in E. destruct H as [[= <- <-] | []].
        split; [reflexivity|]. exists 0%nat. subst ch. split; [reflexivity|lia].
      * split; [exact Hb|]. exists (S i). split; [exact Hi|lia].
    + intros (Hb & [|i] & Hi & Ha).
      * left. simpl in Hi. injection Hi as ->. simpl. left. f_equal; lia.
      * right. split; [exact Hb|]. exists i. split; [exact Hi|lia].
Qed.

Lemma marker_text_cons c line rest y v v1 v' :
  marker_row c (list_ascii_of_string line) 0 y v v1 ->
  marker_text c rest (y + 1) v1 v' ->
  marker_text c (line :: rest) y v v'.
Proof.
  intros Hrow [[Hv Hn] | (i & j & Hij & Hv & Hl)].
  - destruct Hrow as [[Hv1 Hn1] | (i & Hi & Hv1 & Hl1)].
    + left. split; [congruence|]. intros i [|j]; [apply Hn1|apply Hn].
    + right. exists i, 0%nat. split; [exact Hi|].
      split; [rewrite Hv, Hv1; f_equal; lia|].
      intros i' [|j'] Hlater; [|apply Hn].
      destruct Hlater as [H | [_ H2]]; [lia|apply Hl1, H2].
  - right. exists i, (S j). split; [exact Hij|]. split; [rewrite Hv; f_equal; lia|].
    intros i' [|j'] Hlater; [lia|]. apply Hl.
    destruct Hlater as [H | [H1 H2]]; [left; lia|right; split; [lia|exact H2]].
Qed.

Lemma parse_rows_acc y lines p :
  marker_text "P" lines y (p_player_start p) (p_player_start (parse_rows y lines p))
  /\ marker_text "E" lines y (p_exit_pos p) (p_exit_pos (parse_rows y lines p))
  /\ (forall a b,
        In (a, b) (p_gold_positions (parse_rows y lines p)) <->
        In (a, b) (p_gold_positions p)
        \/ exists i j, char_at lines i j = Some "G"%char
                       /\ a = Z.of_nat i /\ b = y + Z.of_nat j).
Proof.
  revert y p. induction lines as [|line lines IH]; intros y p; cbn [parse_rows].
  - split; [|split].
    + left. split; [reflexivity|]. intros i j. destruct j; discriminate.
    + left. split; [reflexivity|]. intros i j. destruct j; discriminate.
    + intros a b. split; [auto|]. intros [H | (i & j & H & _)]; [exact H|].
      destruct j; discriminate.
  - destruct (parse_row_acc 0 y (list_ascii_of_string line) []
                (p_player_start p) (p_exit_pos p) (p_gold_positions p))
      as (ps' & ep' & Heq & HP & HE).
    destruct (parse_row 0 y (list_ascii_of_string line)
                ([], (p_player_start p, p_exit_pos p, p_gold_positions p)))
      as [r [[ps1 ep1] g1]].
    cbn [snd] in Heq. injection Heq as -> -> ->.
    match goal with |- context [parse_rows (y + 1) lines ?q] =>
      destruct (IH (y + 1) q) as (IP & IE & IG) end.
    cbn [p_player_start p_exit_pos p_gold_positions] in IP, IE, IG.
    split; [eapply marker_text_cons; eassumption|].
    split; [eapply marker_text_cons; eassumption|].
    intros a b. rewrite IG, in_app_iff, golds_in_row_In. split.
    + intros [[H | (Hb & i & Hi & Ha)] | (i & j & Hij & Ha & Hb)].
      * left. exact H.
      * right. exists i, 0%nat. split; [exact Hi|]. split; lia.
      * right. exists i, (S j). split; [exact Hij|]. split; lia.
    + intros [H | (i & [|j] & Hij & Ha & Hb)].
      * left. left. exact H.
      * left. right. split; [lia|]. exists i. split; [exact Hij|lia].
      * right. exists i, j. split; [exact Hij|]. split; lia.
Qed.

Lemma legend_grid_cell lines i j :
  legend_grid lines !! j ≫= (fun row => row !! i) = tile_of_char <$> char_at lines i j.
Proof.
  unfold legend_grid, char_at.
  change (List.map ?f ?l) with (f <$> l). rewrite list_lookup_fmap.
  destruct (lines !! j) as [line|]; simpl; [|reflexivity].
  change (List.map ?f ?l) with (f <$> l). rewrite list_lookup_fmap. reflexivity.
Qed.

Lemma tile_of_char_gold ch : tile_of_char ch = GOLD <-> ch = "G"%char.
Proof.
  split; [|intros ->; reflexivity]. unfold tile_of_char.
  destruct (Ascii.eqb ch "#"); [discriminate|].
  destruct (Ascii.eqb ch "H"); [discriminate|].
  destruct (Ascii.eqb ch "="); [discriminate|].
  destruct (Ascii.eqb ch "G") eqn:E; [intros _; apply Ascii.eqb_eq, E|].
  destruct (Ascii.eqb ch "E"); discriminate.
Qed.

Lemma tile_of_char_exit ch : tile_of_char ch = EXIT <-> ch = "E"%char.
Proof.
  split; [|intros ->; reflexivity]. unfold tile_of_char.
  destruct (Ascii.eqb ch "#"); [discriminate|].
  destruct (Ascii.eqb ch "H"); [discriminate|].
  destruct (Ascii.eqb ch "="); [discriminate|].
  destruct (Ascii.eqb ch "G"); [discriminate|].
  destruct (Ascii.eqb ch "E") eqn:E; [intros _; apply Ascii.eqb_eq, E|discriminate].
Qed.

(** X1: [parse_level] builds the grid cell by cell from the text.  The grid
    has one row per line and one cell per character, the cell in column [i]
    of line [j] is the legend's tile of that character, and every cell is one
    of the six tile identifiers. *)
Theorem parse_level_cells (lines : list string) :
  length (p_grid (parse_level lines)) = length lines
  /\ (forall i j,
        p_grid (parse_level lines) !! j ≫= (fun row => row !! i) =
        tile_of_char <$> char_at lines i j)
  /\ (forall j line, lines !! j = Some line ->
        exists row, p_grid (parse_level lines) !! j = Some row
                    /\ length row = String.length line)
  /\ (forall row t, In row (p_grid (parse_level lines)) -> In t row -> 0 <= t <= 5).
Proof.
  rewrite parse_level_grid. split; [|split; [|split]].
  - unfold legend_grid. apply length_map.
  - intros i j. apply legend_grid_cell.
  - intros j line Hj. unfold legend_grid.
    change (List.map ?f lines) with (f <$> lines). rewrite list_lookup_fmap, Hj. simpl.
    eexists. split; [reflexivity|]. rewrite length_map. apply length_list_ascii.
  - intros row t Hrow Ht. unfold legend_grid in Hrow.
    apply in_map_iff in Hrow as (line & <- & _).
    apply in_map_iff in Ht as (ch & <- & _). apply tile_of_char_range.
Qed.

Lemma legend_grid_rect lines :
  (forall l1 l2, In l1 lines -> In l2 lines -> String.length l1 = String.length l2) ->
  rect (legend_grid lines).
Proof.
  intros H. unfold rect. rewrite Forall_forall. intros r Hr.
  apply list_elem_of_In in Hr. unfold legend_grid in Hr.
  apply in_map_iff in Hr as (line & <- & Hin).
  destruct lines as [|l0 lines]; [destruct Hin|].
  cbn [legend_grid List.map row0]. rewrite !length_map, !length_list_ascii.
  apply H; [exact Hin|left; reflexivity].
Qed.

(** X2: when all lines of the text have the same length, the parsed grid is
    rectangular and [in_bounds] holds exactly for [0 <= y < len(lines)] and
    [0 <= x < len(lines[0])]. *)
Theorem parse_level_rect (lines : list string) :
  (forall l1 l2, In l1 lines -> In l2 lines -> String.length l1 = String.length l2) ->
  rect (p_grid (parse_level lines))
  /\ forall x y,
       in_bounds (p_grid (parse_level lines)) x y = true <->
       0 <= y < len lines
       /\ 0 <= x < Z.of_nat (String.length (List.hd EmptyString lines)).
Proof.
  intros H. rewrite parse_level_grid. split; [apply legend_grid_rect, H|].
  intros x y. rewrite in_bounds_spec. unfold len, legend_grid. rewrite length_map.
  destruct lines as [|l0 lines]; cbn [List.map row0 List.hd length String.length].
  - lia.
  - rewrite length_map, length_list_ascii. reflexivity.
Qed.

(** X3: the gold positions returned by [parse_level] are exactly the
    coordinates of the cells of the parsed grid that hold [GOLD]. *)
Theorem parse_level_gold_positions (lines : list string) (x y : Z) :
  In (x, y) (p_gold_positions (parse_level lines)) <->
  exists i j, x = Z.of_nat i /\ y = Z.of_nat j
              /\ p_grid (parse_level lines) !! j ≫= (fun row => row !! i) = Some GOLD.
Proof.
  unfold parse_level at 1.
  destruct (parse_rows_acc 0 lines (mkParsed [] (1, 1) (1, 1) [])) as (_ & _ & HG).
  rewrite HG. cbn [p_gold_positions]. rewrite parse_level_grid. split.
  - intros [[] | (i & j & Hc & -> & ->)]. exists i, j.
    split; [reflexivity|]. split; [lia|]. rewrite legend_grid_cell, Hc. reflexivity.
  - intros (i & j & -> & -> & Hc). right. exists i, j.
    rewrite legend_grid_cell in Hc.
    destruct (char_at lines i j) as [ch|]; [|discriminate]. simpl in Hc.
    injection Hc as Hc. apply tile_of_char_gold in Hc. subst ch.
    split; [reflexivity|]. split; lia.
Qed.

(** X4: the player start and the exit position returned by [parse_level] are
    the positions of the last [P] and the last [E] of the text in reading
    order, and the default [(1, 1)] when the text has none; a [P] cell is
    [EMPTY] in the grid, and a cell is [EXIT] exactly where the text has an
    [E]. *)
Theorem parse_level_markers (lines : list string) :
  marker_text "P" lines 0 (1, 1) (p_player_start (parse_level lines))
  /\ marker_text "E" lines 0 (1, 1) (p_exit_pos (parse_level lines))
  /\ (forall i j, char_at lines i j = Some "P"%char ->
        p_grid (parse_level lines) !! j ≫= (fun row => row !! i) = Some EMPTY)
  /\ (forall i j,
        char_at lines i j = Some "E"%char <->
        p_grid (parse_level lines) !! j ≫= (fun row => row !! i) = Some EXIT).
Proof.
  destruct (parse_rows_acc 0 lines (mkParsed [] (1, 1) (1, 1) [])) as (HP & HE & _).
  split; [exact HP|]. split; [exact HE|]. rewrite parse_level_grid. split.
  - intros i j Hc. rewrite legend_grid_cell, Hc. reflexivity.
  - intros i j. rewrite legend_grid_cell. split.
    + intros ->. reflexivity.
    + destruct (char_at lines i j) as [ch|]; [|discriminate]. simpl.
      intros [= Hc]. apply tile_of_char_exit in Hc. subst. reflexivity.
Qed.

(** ** Gold *)

(** X5: [set_tile] followed by a read.  On a rectangular grid the written
    cell reads back as the new tile when it lies inside the grid, every other
    cell reads as before, the bounds and the rectangular shape are kept, and a
    write outside the grid changes nothing. *)
Theorem set_tile_read_back (g : list (list Z)) (x y t : Z) :
  rect g ->
  (forall x' y',
      tile_at (set_tile_at g x y t) x' y' =
      if in_bounds g x y && ((x =? x') && (y =? y')) then t else tile_at g x' y')
  /\ (forall x' y', in_bounds (set_tile_at g x y t) x' y' = in_bounds g x' y')
  /\ rect (set_tile_at g x y t)
  /\ (in_bounds g x y = false -> set_tile_at g x y t = g).
Proof.
  intros Hr. split; [intros x' y'; apply tile_at_set_tile_at, Hr|].
  split; [intros x' y'; apply in_bounds_set_tile_at|].
  split; [apply rect_set_tile_at, Hr|].
  intros Hb. unfold set_tile_at. rewrite Hb. reflexivity.
Qed.

Lemma row_gold_insert row i a b :
  row !! i = Some a ->
  (row_gold (<[i:=b]> row) + is_gold a = row_gold row + is_gold b)%nat.
Proof.
  revert i. induction row as [|c row IH]; intros i Hi; [destruct i; discriminate|].
  destruct i as [|i]; simpl in Hi.
  - injection Hi as ->. unfold row_gold, is_gold. simpl.
    destruct (a =? GOLD), (b =? GOLD); simpl; lia.
  - specialize (IH i Hi). unfold row_gold in *. simpl.
    destruct (c =? GOLD); simpl; [f_equal|]; exact IH.
Qed.

Lemma gold_left_alter (f : list Z -> list Z) g j row :
  g !! j = Some row ->
  (gold_left (alter f j g) + row_gold row = gold_left g + row_gold (f row))%nat.
Proof.
  revert j. induction g as [|r g IH]; intros j Hj; [destruct j; discriminate|].
  destruct j as [|j]; simpl in Hj.
  - injection Hj as ->. simpl. lia.
  - specialize (IH j Hj). simpl.
    change (list_alter f j g) with (alter f j g). lia.
Qed.

Lemma gold_left_set g x y t :
  rect g -> in_bounds g x y = true ->
  (gold_left (set_tile_at g x y t) + is_gold (tile_at g x y)
   = gold_left g + is_gold t)%nat.
Proof.
  intros Hr Hb. destruct (tile_at_lookup g x y Hr Hb) as (row & Hrow & Ht).
  unfold set_tile_at. rewrite Hb.
  pose proof (gold_left_alter (fun row => <[Z.to_nat x := t]> row) g _ row Hrow) as H1.
  pose proof (row_gold_insert row _ _ t Ht) as H2. cbv beta in H1. lia.
Qed.

Lemma gold_left_zero g : any_gold_left g = false <-> gold_left g = 0%nat.
Proof.
  unfold any_gold_left. induction g as [|row g IH]; simpl; [tauto|].
  rewrite orb_false_iff, IH.
  assert (Hrow : existsb (fun t => t =? GOLD) row = false <-> row_gold row = 0%nat).
  { unfold row_gold. induction row as [|t row IHr]; simpl; [tauto|].
    destruct (t =? GOLD); simpl; [split; [discriminate|lia]|exact IHr]. }
  rewrite Hrow. lia.
Qed.

Lemma gold_left_set_plain g x y t :
  rect g -> tile_at g x y <> GOLD -> t <> GOLD ->
  gold_left (set_tile_at g x y t) = gold_left g.
Proof.
  intros Hr Ho Ht. destruct (in_bounds g x y) eqn:Hb.
  - pose proof (gold_left_set g x y t Hr Hb) as H. unfold is_gold in H.
    apply Z.eqb_neq in Ho, Ht. rewrite Ho, Ht in H. lia.
  - unfold set_tile_at. rewrite Hb. reflexivity.
Qed.

Lemma treasure_collect_gold s :
  rect (grid s) ->
  treasure (collect_gold s) = treasure s
  /\ gold (player s) <= gold (player (collect_gold s))
  /\ (gold_left (grid (collect_gold s)) <= gold_left (grid s))%nat.
Proof.
  intros Hr. unfold collect_gold.
  destruct (tile s (px (player s)) (py (player s)) =? GOLD) eqn:E;
    [|split; [reflexivity|split; lia]].
  assert (Hb : in_bounds (grid s) (px (player s)) (py (player s)) = true).
  { destruct (in_bounds (grid s) (px (player s)) (py (player s))) eqn:Hb; [reflexivity|].
    apply Z.eqb_eq in E. unfold tile in E. rewrite tile_at_oob in E by exact Hb.
    discriminate. }
  pose proof (gold_left_set (grid s) _ _ EMPTY Hr Hb) as H.
  unfold is_gold in H. fold (tile s (px (player s)) (py (player s))) in H.
  rewrite E in H. change (EMPTY =? GOLD) with false in H.
  unfold treasure. cbn [grid player gold set_tile with_grid with_player].
  cbv iota in H. split; [lia|split; lia].
Qed.

Lemma treasure_move_and_collect s dx dy :
  rect (grid s) ->
  rect (grid (move_and_collect s dx dy))
  /\ treasure (move_and_collect s dx dy) = treasure s
  /\ (gold_left (grid (move_and_collect s dx dy)) <= gold_left (grid s))%nat.
Proof.
  intros Hr. unfold move_and_collect, try_move.
  destruct (is_walkable _); [|split; [exact Hr|split; [reflexivity|lia]]].
  match goal with |- context [collect_gold ?s0] =>
    destruct (treasure_collect_gold s0 Hr) as (H1 & _ & H3) end.
  split; [apply collect_gold_rect; exact Hr|]. split; [exact H1|exact H3].
Qed.

Lemma treasure_handle_player_move s dx dy :
  rect (grid s) ->
  treasure (handle_player_move s dx dy) = treasure s
  /\ (gold_left (grid (handle_player_move s dx dy)) <= gold_left (grid s))%nat.
Proof.
  intros Hr. unfold handle_player_move.
  destruct (won s || dead s || (countdown s >? 0)); [split; [reflexivity|lia]|].
  destruct (_ && _ && _); [split; [reflexivity|lia]|]. cbv zeta.
  destruct (negb (dx =? 0)), (negb (dy =? 0)).
  - destruct (treasure_move_and_collect s dx 0 Hr) as (Hr1 & H1 & L1).
    destruct (treasure_move_and_collect _ 0 dy Hr1) as (_ & H2 & L2).
    split; [congruence|lia].
  - destruct (treasure_move_and_collect s dx 0 Hr) as (_ & H1 & L1). auto.
  - destruct (treasure_move_and_collect s 0 dy Hr) as (_ & H1 & L1). auto.
  - split; [reflexivity|lia].
Qed.

Lemma gold_left_dig s d : rect (grid s) -> gold_left (grid (dig s d)) = gold_left (grid s).
Proof.
  intros Hr. destruct (dig_ok s d) eqn:E.
  - rewrite dig_success by exact E. cbn [grid with_holes set_tile with_grid].
    apply gold_left_set_plain; [exact Hr| |discriminate].
    unfold dig_ok in E. apply andb_true_iff in E as [E _]. apply Z.eqb_eq in E.
    unfold tile in E. rewrite E. discriminate.
  - rewrite dig_noop by exact E. reflexivity.
Qed.

Lemma gold_left_holes_loop kept todo s :
  rect (grid s) ->
  (forall h, In h todo -> tile s (hx h) (hy h) <> GOLD) ->
  gold_left (grid (holes_loop kept todo s)) = gold_left (grid s).
Proof.
  revert kept s. induction todo as [|h rest IH]; intros kept s Hr Hn; cbn [holes_loop].
  - reflexivity.
  - destruct (timer (tick_hole h) <=? 0).
    + rewrite IH.
      * cbn [grid set_tile with_grid with_enemies tick_hole hx hy].
        apply gold_left_set_plain; [exact Hr| |discriminate].
        apply (Hn h). left. reflexivity.
      * cbn [grid set_tile with_grid]. apply rect_set_tile_at, Hr.
      * intros h' Hin.
        match goal with |- tile ?s2 _ _ <> _ =>
          change (tile s2 (hx h') (hy h'))
            with (tile (set_tile s (hx h) (hy h) BRICK) (hx h') (hy h')) end.
        rewrite tile_set_tile by exact Hr.
        destruct (_ && _); [discriminate|]. apply Hn. right. exact Hin.
    + apply IH; [exact Hr|]. intros h' Hin. apply Hn. right. exact Hin.
Qed.

Lemma hole_cells_not_gold s :
  grid_inv (grid s) (holes s) ->
  forall h, In h (holes s) -> tile s (hx h) (hy h) <> GOLD.
Proof.
  intros Hg h Hin. destruct (inb (hx h) (hy h)) eqn:Hb.
  - unfold tile. rewrite (proj1 (gi_holes _ _ Hg h Hin Hb)). discriminate.
  - unfold tile. rewrite tile_at_oob; [discriminate|].
    rewrite (gi_dims _ _ Hg). exact Hb.
Qed.

Lemma gold_left_before_entities s :
  grid_inv (grid s) (holes s) ->
  gold_left (grid (before_entities s)) = gold_left (grid s).
Proof.
  intros Hg. unfold before_entities, update_holes.
  destruct (tick_countdown_frame s) as (Eg & _ & _ & Eh & _).
  rewrite gold_left_holes_loop.
  - rewrite Eg. reflexivity.
  - rewrite Eg. apply (gi_rect _ _ Hg).
  - intros h Hin. rewrite Eh in Hin. rewrite tick_countdown_tile.
    apply hole_cells_not_gold; assumption.
Qed.

Lemma treasure_fall_player s :
  treasure (fall_player s) = treasure s /\ grid (fall_player s) = grid s.
Proof.
  unfold fall_player, try_move. destruct (gravity_applies _ _ _); [|auto].
  destruct (is_walkable _); auto.
Qed.

Lemma gold_inv_update_entities s :
  rect (grid s) -> gold_inv s -> gold_inv (update_entities s).
Proof.
  intros Hr Hinv. pose proof Hinv as (Ht & Hg & Hw).
  destruct (won s) eqn:Ew; [rewrite update_entities_gated by auto; exact Hinv|].
  destruct (dead s) eqn:Ed; [rewrite update_entities_gated by auto; exact Hinv|].
  destruct (Z.lt_ge_cases 0 (countdown s)) as [Hpos | Hz];
    [rewrite update_entities_gated by auto; exact Hinv|].
  rewrite update_entities_running by assumption.
  destruct (collision_phase_frame (enemy_phase (player_phase s)))
    as (C1 & C2 & _ & _ & C5 & _).
  destruct (enemy_phase_frame (player_phase s)) as (F1 & F2 & _ & F4 & _).
  destruct (player_phase_frame s) as (_ & _ & _ & _ & _ & _ & P7 & P8).
  destruct (treasure_fall_player s) as (T1 & T2).
  destruct (treasure_collect_gold (fall_player s) ltac:(rewrite T2; exact Hr))
    as (T3 & T4 & _).
  assert (Hgold : gold (player (fall_player s)) = gold (player s)).
  { unfold treasure in T1. rewrite T2 in T1. lia. }
  unfold gold_inv, treasure. rewrite C1, C2, C5, F1, F2, F4, P7, P8.
  fold (treasure (collect_gold (fall_player s))).
  split; [congruence|]. split; [lia|].
  rewrite player_phase_won, Ew, orb_false_r. intros Hwon.
  apply andb_true_iff in Hwon as [Hno _]. apply negb_true_iff in Hno.
  apply gold_left_zero. exact Hno.
Qed.

Lemma reachable_gold_inv s : reachable s -> gold_inv s.
Proof.
  induction 1 as [|s ev Hs (Ht & Hg & Hw)].
  - split; [vm_compute; reflexivity|]. split; [vm_compute; discriminate|discriminate].
  - pose proof (reachable_inv s Hs) as Hi.
    pose proof (gi_rect _ _ (inv_grid s Hi)) as Hr.
    assert (Hdig : forall d, gold_inv (dig s d)).
    { intros d. destruct (dig_frame s d) as (Ep & _ & Ew & _).
      unfold gold_inv, treasure. rewrite gold_left_dig, Ep, Ew by exact Hr.
      repeat split; assumption. }
    assert (Hmove : forall dx dy, gold_inv (handle_player_move s dx dy)).
    { intros dx dy. destruct (treasure_handle_player_move s dx dy Hr) as (T & L).
      destruct (handle_player_move_frame s dx dy) as (_ & _ & Ew & _).
      unfold gold_inv. rewrite T, Ew. split; [exact Ht|].
      split; [unfold treasure in T; lia|]. intros W. specialize (Hw W). lia. }
    destruct ev; cbn [apply_event]; auto.
    + split; [vm_compute; reflexivity|]. split; [vm_compute; discriminate|discriminate].
    + rewrite step_unfold. apply gold_inv_update_entities.
      * apply (gi_rect _ _ (inv_grid _ (inv_before_entities s Hi))).
      * destruct (before_entities_frame s) as (Ep & Ew & _).
        unfold gold_inv, treasure.
        rewrite gold_left_before_entities, Ep, Ew by apply (inv_grid s Hi).
        repeat split; assumption.
Qed.

(** X6: the scan [any(GOLD in row for row in grid)] of [update_entities]
    finds gold exactly when some cell reads [GOLD], and finds none exactly
    when the count of [GOLD] cells is zero. *)
Theorem any_gold_left_scan (g : list (list Z)) :
  rect g ->
  (any_gold_left g = true <-> exists x y, tile_at g x y = GOLD)
  /\ (any_gold_left g = false <-> gold_left g = 0%nat).
Proof. intros Hr. split; [apply any_gold_left_cell, Hr|apply gold_left_zero]. Qed.

(** X7: gold is neither created nor lost.  In every reachable state the gold
    cells left in the grid and the player's gold count add up to the three
    gold cells of the level, the count stays between 0 and 3, and a won game
    has all three collected. *)
Theorem gold_is_conserved (s : Game) :
  reachable s ->
  Z.of_nat (gold_left (grid s)) + gold (player s) = 3
  /\ 0 <= gold (player s) <= 3
  /\ (won s = true -> gold (player s) = 3 /\ any_gold_left (grid s) = false).
Proof.
  intros Hs. destruct (reachable_gold_inv s Hs) as (Ht & Hg & Hw).
  unfold treasure in Ht. split; [exact Ht|]. split; [lia|].
  intros W. specialize (Hw W). split; [lia|]. apply gold_left_zero, Hw.
Qed.

(** ** The player, the countdown and the cadence *)

Lemma walkable_in_bounds g x y :
  is_walkable (tile_at g x y) = true -> in_bounds g x y = true.
Proof.
  intros H. destruct (in_bounds g x y) eqn:Hb; [reflexivity|].
  rewrite tile_at_oob in H by exact Hb. discriminate.
Qed.

Lemma try_move_inside s dx dy : player_inside s -> player_inside (fst (try_move s dx dy)).
Proof.
  intros H. unfold try_move.
  destruct (is_walkable (tile s (px (player s) + dx) (py (player s) + dy))) eqn:W;
    [|exact H].
  unfold player_inside. simpl. apply walkable_in_bounds, W.
Qed.

Lemma collect_gold_inside s : player_inside s -> player_inside (collect_gold s).
Proof.
  unfold player_inside. intros H.
  destruct (collect_gold_frame s) as (_ & _ & _ & _ & _ & _ & _ & -> & ->).
  rewrite collect_gold_in_bounds. exact H.
Qed.

Lemma move_and_collect_inside s dx dy :
  player_inside s -> player_inside (move_and_collect s dx dy).
Proof.
  intros H. pose proof (try_move_inside s dx dy H) as Ht.
  unfold move_and_collect. destruct (try_move s dx dy) as [s' ok]. simpl in Ht.
  destruct ok; [apply collect_gold_inside|]; exact Ht.
Qed.

Lemma handle_player_move_inside s dx dy :
  player_inside s -> player_inside (handle_player_move s dx dy).
Proof.
  intros H. unfold handle_player_move.
  destruct (won s || dead s || (countdown s >? 0)); [exact H|].
  destruct (_ && _ && _); [exact H|]. cbv zeta.
  destruct (negb (dx =? 0)), (negb (dy =? 0)); auto using move_and_collect_inside.
Qed.

Lemma fall_player_inside s : player_inside s -> player_inside (fall_player s).
Proof.
  intros H. unfold fall_player. destruct (gravity_applies _ _ _); [|exact H].
  apply try_move_inside, H.
Qed.

Lemma update_entities_inside s : player_inside s -> player_inside (update_entities s).
Proof.
  intros H. unfold update_entities.
  destruct (won s || dead s); [exact H|]. destruct (countdown s >? 0); [exact H|].
  unfold player_inside.
  destruct (collision_phase_frame (enemy_phase (player_phase s))) as (-> & -> & _).
  destruct (enemy_phase_frame (player_phase s)) as (-> & -> & _).
  destruct (player_phase_frame s) as (_ & _ & _ & _ & _ & _ & -> & ->).
  apply collect_gold_inside, fall_player_inside, H.
Qed.

Lemma step_inside s : player_inside s -> player_inside (step s).
Proof.
  intros H. rewrite step_unfold. apply update_entities_inside.
  unfold player_inside, before_entities, update_holes.
  rewrite holes_loop_in_bounds.
  destruct (holes_loop_frame [] (holes (tick_countdown s)) (tick_countdown s)) as (-> & _).
  destruct (tick_countdown_frame s) as (-> & -> & _). exact H.
Qed.

Lemma dig_inside s d : player_inside s -> player_inside (dig s d).
Proof.
  intros H. unfold player_inside. destruct (dig_frame s d) as (-> & _).
  destruct (dig_ok s d) eqn:E.
  - rewrite dig_success by exact E. cbn [grid with_holes set_tile with_grid].
    rewrite in_bounds_set_tile_at. exact H.
  - rewrite dig_noop by exact E. exact H.
Qed.

Lemma event_inside s ev : player_inside s -> player_inside (apply_event s ev).
Proof.
  intros H. destruct ev; cbn [apply_event];
    auto using dig_inside, handle_player_move_inside, step_inside.
  vm_compute. reflexivity.
Qed.

(** X8: the player never leaves the grid.  A walkable tile is always read
    from inside the grid (outside it [tile_at] answers [BRICK]), every event of
    the main loop keeps the player's cell inside the grid, and so it is inside
    in every reachable state. *)
Theorem player_stays_in_grid :
  (forall g x y, is_walkable (tile_at g x y) = true -> in_bounds g x y = true)
  /\ (forall s ev, player_inside s -> player_inside (apply_event s ev))
  /\ (forall s, reachable s -> player_inside s).
Proof.
  split; [exact walkable_in_bounds|]. split; [exact event_inside|].
  induction 1; [vm_compute; reflexivity|apply event_inside; assumption].
Qed.

(** X9: the outcome of a single-axis move, as the main loop issues them.
    While the game is won, lost or counting down nothing happens; otherwise the
    player moves by one cell exactly when the destination is walkable, and then
    picks up the gold there.  In particular the extra vertical test of
    [handle_player_move] never changes the result. *)
Theorem handle_player_move_outcome (s : Game) (dx dy : Z) :
  (dx <> 0 /\ dy = 0) \/ (dx = 0 /\ dy <> 0) ->
  handle_player_move s dx dy =
  if won s || dead s || (countdown s >? 0) then s
  else if is_walkable (tile s (px (player s) + dx) (py (player s) + dy))
       then collect_gold
              (with_player
                 (mkPlayer (px (player s) + dx) (py (player s) + dy) (gold (player s))) s)
       else s.
Proof.
  intros Hd. unfold handle_player_move.
  destruct (won s || dead s || (countdown s >? 0)); [reflexivity|].
  destruct Hd as [[Hx ->] | [-> Hy]].
  - apply Z.eqb_neq in Hx. rewrite Hx, Z.eqb_refl. simpl.
    unfold move_and_collect, try_move. destruct (is_walkable _); reflexivity.
  - apply Z.eqb_neq in Hy. rewrite Hy, Z.eqb_refl. cbn [negb andb].
    unfold move_and_collect, try_move.
    destruct (is_walkable (tile s (px (player s) + 0) (py (player s) + dy))) eqn:W.
    + replace (px (player s)) with (px (player s) + 0) at 1 by lia. rewrite W.
      reflexivity.
    + destruct (_ && _); reflexivity.
Qed.

Lemma update_entities_countdown s : countdown (update_entities s) = countdown s.
Proof.
  unfold update_entities. destruct (won s || dead s); [reflexivity|].
  destruct (countdown s >? 0); [reflexivity|].
  destruct (collision_phase_frame (enemy_phase (player_phase s)))
    as (_ & _ & _ & _ & _ & -> & _).
  destruct (enemy_phase_frame (player_phase s)) as (_ & _ & _ & _ & _ & -> & _).
  apply (player_phase_frame s).
Qed.

Lemma step_countdown s : countdown (step s) = countdown (tick_countdown s).
Proof.
  rewrite step_unfold, update_entities_countdown. apply (before_entities_frame s).
Qed.

(** X10: once the game is won or lost, only [reset] leaves that state: every
    other event keeps both flags, the player record and the cadence counter
    as they are. *)
Theorem game_over_is_final (s : Game) (ev : Event) :
  ev <> Reset -> won s = true \/ dead s = true ->
  won (apply_event s ev) = won s
  /\ dead (apply_event s ev) = dead s
  /\ player (apply_event s ev) = player s
  /\ enemy_frame_counter (apply_event s ev) = enemy_frame_counter s.
Proof.
  intros Hev Hover.
  assert (Hdig : forall d, won (dig s d) = won s /\ dead (dig s d) = dead s
                           /\ player (dig s d) = player s
                           /\ enemy_frame_counter (dig s d) = enemy_frame_counter s).
  { intros d. destruct (dig_frame s d) as (-> & _ & -> & -> & _ & -> & _). auto. }
  assert (Hmove : forall dx dy, handle_player_move s dx dy = s).
  { intros dx dy. apply handle_player_move_gated. tauto. }
  destruct ev; cbn [apply_event]; try apply Hdig; try (rewrite Hmove; auto);
    [congruence|].
  destruct (before_entities_frame s) as (Ep & Ew & Ed & _ & Ec & _).
  rewrite step_unfold, update_entities_gated by (rewrite Ew, Ed; tauto). auto.
Qed.

(** X11: the countdown is only changed by [step], which counts it down by one
    per tick and stops at zero: after [n] ticks it is [max 0 (c - n)].  Digs
    and moves leave it alone. *)
Theorem countdown_after_ticks (s : Game) (n : nat) :
  0 <= countdown s ->
  countdown (Nat.iter n step s) = Z.max 0 (countdown s - Z.of_nat n)
  /\ (forall d, countdown (dig s d) = countdown s)
  /\ (forall dx dy, countdown (handle_player_move s dx dy) = countdown s).
Proof.
  intros Hc. split; [|split].
  - induction n as [|n IH]; [simpl; lia|].
    change (Nat.iter (S n) step s) with (step (Nat.iter n step s)).
    rewrite step_countdown, tick_countdown_value, IH.
    destruct (Z.max 0 (countdown s - Z.of_nat n) >? 0) eqn:E.
    + rewrite Z.gtb_ltb in E. apply Z.ltb_lt in E. lia.
    + rewrite Z.gtb_ltb in E. apply Z.ltb_ge in E. lia.
  - intros d. apply (dig_frame s d).
  - intros dx dy. apply (handle_player_move_frame s dx dy).
Qed.

Lemma enemy_phase_counter s :
  enemy_frame_counter (enemy_phase s) =
  if enemy_frame_counter s + 1 >=? ENEMY_MOVE_INTERVAL then 0
  else enemy_frame_counter s + 1.
Proof.
  destruct (enemy_frame_counter s + 1 >=? ENEMY_MOVE_INTERVAL) eqn:E.
  - rewrite Z.geb_leb in E. apply Z.leb_le in E.
    rewrite enemy_phase_on_cadence by exact E.
    pose proof (enemy_turns_only (seq 0 (length (enemies s))) (with_counter 0 s)) as H.
    unfold only_enemies in H. rewrite H. reflexivity.
  - rewrite Z.geb_leb in E. apply Z.leb_gt in E.
    rewrite enemy_phase_off_cadence by exact E. reflexivity.
Qed.

Lemma update_entities_counter s :
  enemy_frame_counter (update_entities s) =
  if won s || dead s || (countdown s >? 0) then enemy_frame_counter s
  else if enemy_frame_counter s + 1 >=? ENEMY_MOVE_INTERVAL then 0
       else enemy_frame_counter s + 1.
Proof.
  unfold update_entities. destruct (won s || dead s); [reflexivity|]. cbn [orb].
  destruct (countdown s >? 0); [reflexivity|].
  destruct (collision_phase_frame (enemy_phase (player_phase s)))
    as (_ & _ & _ & _ & _ & _ & -> & _).
  rewrite enemy_phase_counter.
  destruct (player_phase_frame s) as (_ & _ & _ & _ & -> & _). reflexivity.
Qed.

Lemma step_counter s :
  enemy_frame_counter (step s) =
  if won s || dead s || (countdown s >? 1) then enemy_frame_counter s
  else if enemy_frame_counter s + 1 >=? ENEMY_MOVE_INTERVAL then 0
       else enemy_frame_counter s + 1.
Proof.
  rewrite step_unfold, update_entities_counter.
  destruct (before_entities_frame s) as (_ & -> & -> & -> & -> & _).
  rewrite tick_countdown_value.
  replace (countdown s >? 1)
    with ((if countdown s >? 0 then countdown s - 1 else countdown s) >? 0);
    [reflexivity|].
  destruct (countdown s >? 0) eqn:E; rewrite !Z.gtb_ltb in *.
  - destruct (0 <? countdown s - 1) eqn:F, (1 <? countdown s) eqn:G; try reflexivity;
      rewrite ?Z.ltb_lt, ?Z.ltb_ge in *; lia.
  - rewrite E. symmetry. apply Z.ltb_ge. apply Z.ltb_ge in E. lia.
Qed.

(** X12: the cadence counter of the enemies stays within
    [0 .. ENEMY_MOVE_INTERVAL - 1] over every event, advances by one modulo
    [ENEMY_MOVE_INTERVAL] on each tick processed as running (and not at all on
    the others), and on a tick off the cadence [update_entities] leaves the
    enemy list as [update_holes] produced it. *)
Theorem enemy_cadence_counter (s : Game) :
  0 <= enemy_frame_counter s < ENEMY_MOVE_INTERVAL ->
  (forall ev, 0 <= enemy_frame_counter (apply_event s ev) < ENEMY_MOVE_INTERVAL)
  /\ enemy_frame_counter (step s) =
     (if won s || dead s || (countdown s >? 1) then enemy_frame_counter s
      else (enemy_frame_counter s + 1) mod ENEMY_MOVE_INTERVAL)
  /\ (enemy_frame_counter s + 1 < ENEMY_MOVE_INTERVAL ->
      enemies (step s) = enemies (before_entities s)).
Proof.
  intros Hc.
  assert (Hstep : enemy_frame_counter (step s) =
     (if won s || dead s || (countdown s >? 1) then enemy_frame_counter s
      else (enemy_frame_counter s + 1) mod ENEMY_MOVE_INTERVAL)).
  { rewrite step_counter. destruct (won s || dead s || (countdown s >? 1)); [reflexivity|].
    unfold ENEMY_MOVE_INTERVAL in *.
    destruct (enemy_frame_counter s + 1 >=? 10) eqn:E; rewrite Z.geb_leb in E.
    - apply Z.leb_le in E. replace (enemy_frame_counter s + 1) with 10 by lia. reflexivity.
    - apply Z.leb_gt in E. rewrite Z.mod_small by lia. reflexivity. }
  split; [|split; [exact Hstep|]].
  - intros ev. destruct ev; cbn [apply_event].
    + destruct (dig_frame s (-1)) as (_ & _ & _ & _ & _ & -> & _). exact Hc.
    + destruct (dig_frame s 1) as (_ & _ & _ & _ & _ & -> & _). exact Hc.
    + destruct (handle_player_move_frame s (-1) 0) as (_ & _ & _ & _ & _ & -> & _). exact Hc.
    + destruct (handle_player_move_frame s 1 0) as (_ & _ & _ & _ & _ & -> & _). exact Hc.
    + destruct (handle_player_move_frame s 0 (-1)) as (_ & _ & _ & _ & _ & -> & _). exact Hc.
    + destruct (handle_player_move_frame s 0 1) as (_ & _ & _ & _ & _ & -> & _). exact Hc.
    + vm_compute. split; [discriminate|reflexivity].
    + rewrite Hstep. destruct (won s || dead s || (countdown s >? 1)); [exact Hc|].
      apply Z.mod_pos_bound. reflexivity.
  - intros Hoff. rewrite step_unfold. unfold update_entities.
    destruct (won (before_entities s) || dead (before_entities s)); [reflexivity|].
    destruct (countdown (before_entities s) >? 0); [reflexivity|].
    destruct (collision_phase_frame (enemy_phase (player_phase (before_entities s))))
      as (_ & _ & -> & _).
    fold (collision_point (before_entities s)).
    apply collision_point_off_cadence.
    destruct (before_entities_frame s) as (_ & _ & _ & _ & -> & _). exact Hoff.
Qed.

(** ** Tiles, holes and the enemy over a run *)

(** X13: the tile predicates.  [is_solid], [is_climbable] and [is_rope] each
    single out one tile identifier, [is_walkable] holds for the other five of
    the six, so on the identifiers of the level it is the negation of
    [is_solid]; an integer that is no tile identifier is neither solid nor
    walkable. *)
Theorem tile_predicates (t : Z) :
  (is_solid t = true <-> t = BRICK)
  /\ (is_climbable t = true <-> t = LADDER)
  /\ (is_rope t = true <-> t = ROPE)
  /\ (is_walkable t = true <->
      t = EMPTY \/ t = LADDER \/ t = ROPE \/ t = GOLD \/ t = EXIT)
  /\ (0 <= t <= 5 -> is_walkable t = negb (is_solid t))
  /\ (t < 0 \/ 5 < t -> is_walkable t = false /\ is_solid t = false).
Proof.
  unfold is_solid, is_climbable, is_rope, is_walkable, EMPTY, BRICK, LADDER, ROPE,
    GOLD, EXIT.
  split; [apply Z.eqb_eq|]. split; [apply Z.eqb_eq|]. split; [apply Z.eqb_eq|].
  split; [|split].
  - rewrite !orb_true_iff, !Z.eqb_eq. tauto.
  - intros H.
    destruct (t =? 0) eqn:E0, (t =? 1) eqn:E1, (t =? 2) eqn:E2, (t =? 3) eqn:E3,
      (t =? 4) eqn:E4, (t =? 5) eqn:E5; try reflexivity;
      rewrite ?Z.eqb_eq, ?Z.eqb_neq in *; lia.
  - intros H. rewrite !orb_false_iff, !Z.eqb_neq. lia.
Qed.

(** X14: the state [reset] builds from the level: the player at the [P] cell
    (11,15) with no gold, one enemy at (17,9) with that cell as its respawn
    coordinate, no holes, both flags unset, a countdown of 300 frames, the
    cadence counter at zero, the exit at (13,11), three gold cells, and a grid
    of 17 rows of 20 cells; [reset] does not depend on the state it is called
    on. *)
Theorem reset_state :
  grid reset = p_grid (parse_level LEVEL_STR)
  /\ player reset = mkPlayer 11 15 0
  /\ enemies reset = [mkEnemy 17 9 (17, 9)]
  /\ holes reset = []
  /\ won reset = false /\ dead reset = false
  /\ countdown reset = 300 /\ enemy_frame_counter reset = 0
  /\ exit_pos reset = (13, 11)
  /\ p_gold_positions (parse_level LEVEL_STR) = [(12, 1); (9, 5); (12, 9)]
  /\ len (grid reset) = 17 /\ len (row0 (grid reset)) = 20
  /\ tile reset 11 15 = EMPTY /\ tile reset 13 11 = EXIT /\ tile reset 17 9 = EMPTY
  /\ (forall s, apply_event s Reset = reset).
Proof.
  split; [reflexivity|]. repeat (split; [vm_compute; reflexivity|]).
  intros s. reflexivity.
Qed.

Lemma tile_at_In g x y :
  tile_at g x y = BRICK \/ exists row, In row g /\ In (tile_at g x y) row.
Proof.
  unfold tile_at. destruct (negb (in_bounds g x y)); [left; reflexivity|].
  destruct (g !! Z.to_nat y) as [row|] eqn:Ey; [|left; reflexivity]. simpl.
  destruct (row !! Z.to_nat x) as [t|] eqn:Ex; [|left; reflexivity]. simpl.
  right. exists row. split; apply list_elem_of_In; eapply list_elem_of_lookup_2; eassumption.
Qed.

Lemma tile0_range x y : 0 <= tile0 x y <= 5.
Proof.
  unfold tile0. destruct (tile_at_In (grid reset) x y) as [-> | (row & Hrow & Ht)].
  - unfold BRICK. lia.
  - change (grid reset) with (p_grid (parse_level LEVEL_STR)) in Hrow.
    rewrite parse_level_grid in Hrow. unfold legend_grid in Hrow.
    apply in_map_iff in Hrow as (line & <- & _).
    apply in_map_iff in Ht as (ch & <- & _). apply tile_of_char_range.
Qed.

(** X15: what the program can do to the level.  In every reachable state each
    cell holds a tile identifier and the grid has the dimensions of the level;
    ladders, ropes, the exit and empty cells are never changed, no [GOLD] or
    [BRICK] appears where the level had none, and a cell that differs from the
    level is [EMPTY]. *)
Theorem level_tiles_persist (s : Game) :
  reachable s ->
  forall x y,
    0 <= tile s x y <= 5
    /\ in_bounds (grid s) x y = in_bounds (grid reset) x y
    /\ (tile0 x y = LADDER \/ tile0 x y = ROPE \/ tile0 x y = EXIT \/ tile0 x y = EMPTY ->
        tile s x y = tile0 x y)
    /\ (tile s x y = GOLD -> tile0 x y = GOLD)
    /\ (tile s x y = BRICK -> tile0 x y = BRICK)
    /\ (tile s x y <> tile0 x y -> tile s x y = EMPTY).
Proof.
  intros Hs x y. pose proof (inv_grid s (reachable_inv s Hs)) as Hg.
  pose proof (gi_cells _ _ Hg x y) as Hc. pose proof (tile0_range x y) as Hr.
  fold (tile s x y) in Hc. unfold cell_ok in Hc.
  unfold LADDER, ROPE, EXIT, EMPTY, GOLD, BRICK in *.
  split; [lia|]. split; [apply (gi_dims _ _ Hg)|].
  split; [lia|]. split; [lia|]. split; lia.
Qed.

Lemma timers_ok_event s ev : timers_ok s -> timers_ok (apply_event s ev).
Proof.
  intros H.
  assert (Hdig : forall d, timers_ok (dig s d)).
  { intros d. destruct (dig_ok s d) eqn:E.
    - rewrite dig_success by exact E. intros h. cbn [holes with_holes].
      rewrite in_app_iff. intros [Hin | [<- | []]]; [apply H, Hin|].
      cbn [timer]. unfold HOLE_REGEN_FRAMES. lia.
    - rewrite dig_noop by exact E. exact H. }
  assert (Hmove : forall dx dy, timers_ok (handle_player_move s dx dy)).
  { intros dx dy h. destruct (handle_player_move_frame s dx dy) as (_ & -> & _).
    apply H. }
  destruct ev; cbn [apply_event]; auto.
  - intros h [].
  - intros h. rewrite step_holes, survivors_In. intros (h0 & Hin & Ht & ->).
    specialize (H h0 Hin). cbn [tick_hole timer]. lia.
Qed.

(** X16: the timer of every recorded hole lies between 1 and
    [HOLE_REGEN_FRAMES] in every reachable state, and every hole recorded after
    a tick is a hole recorded before it, at the same cell, with its timer one
    lower. *)
Theorem hole_timers_bounded (s : Game) (h : Hole) :
  reachable s -> In h (holes s) ->
  0 < timer h <= HOLE_REGEN_FRAMES
  /\ (forall h', In h' (holes (step s)) -> exists h0,
        In h0 (holes s) /\ hx h' = hx h0 /\ hy h' = hy h0 /\ timer h' = timer h0 - 1).
Proof.
  intros Hs Hin. split.
  - revert h Hin. change (timers_ok s).
    induction Hs; [intros h []|apply timers_ok_event; assumption].
  - intros h'. rewrite step_holes, survivors_In. intros (h0 & Hin0 & _ & ->).
    exists h0. auto.
Qed.

(** X17: digging the same direction twice in a row is the same as digging
    once, whenever the target lies inside the grid (the dug cell is [EMPTY],
    so the second [dig] returns at its first test) or the first dig is
    refused. *)
Theorem dig_twice (s : Game) (d : Z) :
  rect (grid s) ->
  in_bounds (grid s) (px (player s) + d) (py (player s) + 1) = true
  \/ dig_ok s d = false ->
  dig (dig s d) d = dig s d.
Proof.
  intros Hr Hc. destruct (dig_ok s d) eqn:E.
  - destruct Hc as [Hb | Hf]; [|discriminate].
    apply dig_noop. unfold dig_ok.
    destruct (dig_frame s d) as (-> & _).
    destruct (dig_effect s d Hr) as (_ & Hset & _).
    cbv zeta in Hset. rewrite (Hset E Hb). reflexivity.
  - rewrite !dig_noop by (rewrite ?dig_noop; exact E). reflexivity.
Qed.

(** X18: in every reachable state there is exactly one enemy, its respawn
    coordinate is still (17,9), it stands inside the grid on a walkable cell,
    and never on the exit. *)
Theorem single_enemy (s : Game) :
  reachable s ->
  exists e,
    enemies s = [e] /\ respawn e = (17, 9)
    /\ in_bounds (grid s) (ex e) (ey e) = true
    /\ is_walkable (tile s (ex e) (ey e)) = true
    /\ (ex e, ey e) <> exit_pos s.
Proof.
  intros Hs. pose proof (reachable_inv s Hs) as Hi.
  destruct (inv_enemy s Hi) as (e & He & Hre & Hpos). exists e.
  assert (Hnb : tile s (ex e) (ey e) <> BRICK).
  { apply (reachable_enemy_free s Hs). rewrite He. left. reflexivity. }
  assert (Hw : is_walkable (tile s (ex e) (ey e)) = true).
  { pose proof (inv_grid s Hi) as Hg.
    pose proof (gi_cells _ _ Hg (ex e) (ey e)) as Hc.
    pose proof (tile0_range (ex e) (ey e)) as Hr.
    fold (tile s (ex e) (ey e)) in Hc. unfold cell_ok in Hc.
    unfold is_walkable. rewrite !orb_true_iff, !Z.eqb_eq.
    unfold EMPTY, BRICK, LADDER, ROPE, GOLD, EXIT in *. lia. }
  split; [exact He|]. split; [exact Hre|]. split; [apply walkable_in_bounds, Hw|].
  split; [exact Hw|]. rewrite (inv_exit s Hi). unfold pos_ok in Hpos.
  intros [= Hx Hy]. lia.
Qed.

(** ** Instances on concrete states *)

Lemma C1_witness :
  reachable reset
  /\ ((exists st, in_status reset st /\ forall st', in_status reset st' -> st' = st)
      /\ ~ (won reset = true /\ dead reset = true)).
Proof. split; [exact reach_reset|exact (C1_status_exclusive reset reach_reset)]. Defined.

Example dig_effect_at_reset :
  tile reset (px (player reset) + -1) (py (player reset) + 1) = BRICK
  /\ is_walkable (tile reset (px (player reset) + -1) (py (player reset))) = true
  /\ tile (dig reset (-1)) (px (player reset) + -1) (py (player reset) + 1) = EMPTY
  /\ holes (dig reset (-1)) =
     holes reset
     ++ [mkHole (px (player reset) + -1) (py (player reset) + 1) HOLE_REGEN_FRAMES].
Proof.
  assert (H1 : tile reset (px (player reset) + -1) (py (player reset) + 1) = BRICK)
    by (vm_compute; reflexivity).
  assert (H2 : is_walkable (tile reset (px (player reset) + -1) (py (player reset)))
               = true) by (vm_compute; reflexivity).
  destruct (dig_effect reset (-1) rect_reset) as (Hh & Ht & _).
  split; [exact H1|]. split; [exact H2|]. split.
  - apply Ht; vm_compute; reflexivity.
  - apply Hh. split; assumption.
Qed.

Lemma C4_witness :
  rect (grid reset) /\ dig_ok reset (-1) = true
  /\ holes (Nat.iter 240 step (dig reset (-1))) = Nat.iter 240 survivors (holes reset)
  /\ tile (Nat.iter 240 step (dig reset (-1)))
          (px (player reset) + -1) (py (player reset) + 1) = BRICK.
Proof.
  split; [exact rect_reset|]. split; [vm_compute; reflexivity|].
  apply (proj2 (proj1 (proj2 (proj2 (proj2 C4_hole_regeneration))) reset (-1) rect_reset
                  ltac:(vm_compute; reflexivity))).
Defined.

Lemma C5_witness :
  let s := with_player (mkPlayer 1 1 0) (with_countdown 0 reset) in
  (won s = false /\ dead s = false /\ countdown s <= 0
   /\ tile s (px (player s)) (py (player s)) = EMPTY
   /\ tile s (px (player s)) (py (player s) + 1) = EMPTY)
  /\ px (player (update_entities s)) = px (player s)
  /\ py (player (update_entities s)) = py (player s) + 1.
Proof.
  intros s.
  assert (Hc : countdown s <= 0) by (vm_compute; intros H; discriminate H).
  assert (Hw : won s = false) by (vm_compute; reflexivity).
  assert (Hd : dead s = false) by (vm_compute; reflexivity).
  assert (H1 : tile s (px (player s)) (py (player s)) = EMPTY) by (vm_compute; reflexivity).
  assert (H2 : tile s (px (player s)) (py (player s) + 1) = EMPTY)
    by (vm_compute; reflexivity).
  split; [exact (conj Hw (conj Hd (conj Hc (conj H1 H2))))|].
  exact (proj1 (proj2 (proj2 (proj2 (proj2 C5_gravity_rule)))) s Hw Hd Hc H1 H2).
Defined.

Lemma C6_witness :
  let s := run reset winning_route in
  (rect (grid s) /\ won s = false /\ won (step s) = true)
  /\ dead s = false /\ countdown (tick_countdown s) <= 0
  /\ (forall x y, tile (win_point (before_entities s)) x y <> GOLD)
  /\ px (player (win_point (before_entities s))) = fst (exit_pos s)
  /\ py (player (win_point (before_entities s))) = snd (exit_pos s).
Proof.
  intros s.
  assert (Hr : rect (grid s)) by (unfold rect; vm_compute; repeat constructor).
  assert (Hw : won s = false) by (vm_compute; reflexivity).
  assert (Hstep : won (step s) = true) by (vm_compute; reflexivity).
  split; [exact (conj Hr (conj Hw Hstep))|].
  exact (proj1 (proj1 (C6_win_condition s Hr) Hw) Hstep).
Defined.

Lemma C7_witness :
  reachable reset /\ 0 < countdown reset
  /\ (forall ev, positions (apply_event reset ev) = positions reset)
  /\ countdown (step reset) = countdown reset - 1.
Proof.
  split; [exact reach_reset|]. split; [vm_compute; reflexivity|].
  pose proof (C7_starting_gate reset reach_reset ltac:(vm_compute; reflexivity))
    as (_ & H2 & H3 & _).
  split; [exact H2|exact H3].
Defined.

Lemma C8_witness :
  let s := run reset walk_into_enemy in
  let e := mkEnemy 12 15 (17, 9) in
  (won s = false /\ dead s = false /\ countdown s <= 1 /\ reachable s
   /\ enemy_frame_counter s + 1 < ENEMY_MOVE_INTERVAL
   /\ In e (enemies (before_entities s))
   /\ ex e = px (player (fall_player (before_entities s)))
   /\ ey e = py (player (fall_player (before_entities s))))
  /\ dead (step s) = true
  /\ (exists e', In e' (enemies (collision_point (before_entities s)))
                 /\ ex e' = px (player (collision_point (before_entities s)))
                 /\ ey e' = py (player (collision_point (before_entities s))))
  /\ in_status (step s) Lost /\ won (step s) = false.
Proof.
  intros s e.
  assert (Hc : countdown s <= 1) by (vm_compute; intros H; discriminate H).
  assert (Hcad : enemy_frame_counter s + 1 < ENEMY_MOVE_INTERVAL)
    by (vm_compute; reflexivity).
  assert (Hw : won s = false) by (vm_compute; reflexivity).
  assert (Hd : dead s = false) by (vm_compute; reflexivity).
  assert (Hs : reachable s) by (apply reachable_run, reach_reset).
  assert (Hin : In e (enemies (before_entities s))) by (vm_compute; left; reflexivity).
  assert (Hx : ex e = px (player (fall_player (before_entities s))))
    by (vm_compute; reflexivity).
  assert (Hy : ey e = py (player (fall_player (before_entities s))))
    by (vm_compute; reflexivity).
  split; [exact (conj Hw (conj Hd (conj Hc (conj Hs (conj Hcad (conj Hin (conj Hx Hy)))))))|].
  pose proof (C8_collision s Hw Hd Hc) as (H1 & H2 & H3).
  pose proof (H2 Hcad e Hin Hx Hy) as Hdead.
  split; [exact Hdead|]. split; [exact (proj1 H1 Hdead)|]. exact (H3 Hs Hdead).
Defined.

Lemma C9_witness :
  let s := with_player (mkPlayer 11 9 0) reset in
  enemies s !! 0%nat = Some spawn_enemy
  /\ enemy_ai_step s 0%nat =
     attempt s 0%nat
       (chase_policy_spec (ex spawn_enemy) (ey spawn_enemy)
          (px (player s)) (py (player s))
          (tile s (ex spawn_enemy) (ey spawn_enemy))
          (tile s (ex spawn_enemy) (ey spawn_enemy - 1))
          (tile s (ex spawn_enemy) (ey spawn_enemy + 1))).
Proof.
  intros s.
  assert (He : enemies s !! 0%nat = Some spawn_enemy) by (vm_compute; reflexivity).
  split; [exact He|].
  exact (proj1 C9_chase_policy s 0%nat spawn_enemy He).
Defined.

Lemma C10_witness :
  let s := run reset (ticks 300 ++ [DigLeft; MoveLeft] ++ ticks 239) in
  let h := mkHole 10 16 1 in
  (rect (grid s) /\ In h (holes s) /\ timer h <= 1
   /\ px (player s) = hx h /\ py (player s) = hy h)
  /\ tile (update_holes s) (px (player s)) (py (player s)) = BRICK
  /\ player (update_holes s) = player s
  /\ dead (update_holes s) = dead s.
Proof.
  intros s h.
  assert (Ht : timer h <= 1) by (vm_compute; intros H; discriminate H).
  assert (Hr : rect (grid s)) by (unfold rect; vm_compute; repeat constructor).
  assert (Hin : In h (holes s)) by (vm_compute; left; reflexivity).
  assert (Hx : px (player s) = hx h) by (vm_compute; reflexivity).
  assert (Hy : py (player s) = hy h) by (vm_compute; reflexivity).
  split; [exact (conj Hr (conj Hin (conj Ht (conj Hx Hy))))|].
  pose proof (C10_player_sealed s h Hr Hin Ht Hx Hy) as (H1 & _ & _ & H4 & _ & H6 & _).
  split; [exact H1|]. split; [exact H4|exact H6].
Defined.

Lemma level_lines_equal l1 l2 :
  In l1 LEVEL_STR -> In l2 LEVEL_STR -> String.length l1 = String.length l2.
Proof.
  assert (H : List.Forall (fun l => String.length l = 20%nat) LEVEL_STR)
    by (unfold LEVEL_STR; repeat constructor).
  intros H1 H2. rewrite List.Forall_forall in H.
  rewrite (H l1 H1), (H l2 H2). reflexivity.
Qed.

Lemma parse_level_rect_witness :
  (forall l1 l2, In l1 LEVEL_STR -> In l2 LEVEL_STR -> String.length l1 = String.length l2)
  /\ rect (p_grid (parse_level LEVEL_STR))
  /\ (in_bounds (p_grid (parse_level LEVEL_STR)) 19 16 = true
      <-> 0 <= 16 < len LEVEL_STR
          /\ 0 <= 19 < Z.of_nat (String.length (List.hd EmptyString LEVEL_STR))).
Proof.
  split; [exact level_lines_equal|].
  pose proof (parse_level_rect LEVEL_STR level_lines_equal) as (H1 & H2).
  split; [exact H1|exact (H2 19 16)].
Defined.

Lemma set_tile_read_back_witness :
  rect (grid reset)
  /\ tile_at (set_tile_at (grid reset) 11 16 EMPTY) 11 16 = EMPTY
  /\ tile_at (set_tile_at (grid reset) 11 16 EMPTY) 10 16 = tile_at (grid reset) 10 16
  /\ set_tile_at (grid reset) 11 17 EMPTY = grid reset.
Proof.
  pose proof (set_tile_read_back (grid reset) 11 16 EMPTY rect_reset) as (H1 & _).
  pose proof (set_tile_read_back (grid reset) 11 17 EMPTY rect_reset) as (_ & _ & _ & H4).
  split; [exact rect_reset|].
  split; [exact (eq_trans (H1 11 16) eq_refl)|].
  split; [exact (eq_trans (H1 10 16) eq_refl)|].
  apply H4. vm_compute. reflexivity.
Defined.

Lemma any_gold_left_scan_witness :
  rect (grid reset)
  /\ any_gold_left (grid reset) = true
  /\ (exists x y, tile_at (grid reset) x y = GOLD)
  /\ gold_left (grid reset) <> 0%nat.
Proof.
  pose proof (any_gold_left_scan (grid reset) rect_reset) as (H1 & H2).
  assert (Ht : any_gold_left (grid reset) = true) by (vm_compute; reflexivity).
  split; [exact rect_reset|]. split; [exact Ht|]. split; [exact (proj1 H1 Ht)|].
  intros Hz. apply H2 in Hz. rewrite Ht in Hz. discriminate Hz.
Defined.

Lemma gold_is_conserved_witness :
  let s := run reset (winning_route ++ [Tick]) in
  reachable s /\ won s = true
  /\ Z.of_nat (gold_left (grid s)) + gold (player s) = 3
  /\ gold (player s) = 3 /\ any_gold_left (grid s) = false.
Proof.
  intros s.
  assert (Hs : reachable s) by (apply reachable_run, reach_reset).
  assert (Hw : won s = true) by (vm_compute; reflexivity).
  pose proof (gold_is_conserved s Hs) as (H1 & _ & H3).
  exact (conj Hs (conj Hw (conj H1 (H3 Hw)))).
Defined.

Lemma player_stays_in_grid_witness :
  let s := run reset below_floor in
  reachable s /\ py (player s) = 16 /\ player_inside s
  /\ player_inside (apply_event s MoveDown).
Proof.
  intros s.
  assert (Hs : reachable s) by (apply reachable_run, reach_reset).
  assert (Hy : py (player s) = 16) by (vm_compute; reflexivity).
  pose proof player_stays_in_grid as (_ & H2 & H3).
  exact (conj Hs (conj Hy (conj (H3 s Hs) (H2 s MoveDown (H3 s Hs))))).
Defined.

Lemma handle_player_move_outcome_witness :
  let s := run reset (ticks 300 ++ [MoveRight] ++ repeat MoveUp 5) in
  ((0 <> 0 /\ -1 = 0) \/ (0 = 0 /\ -1 <> 0))
  /\ player s = mkPlayer 12 10 0 /\ tile s 12 9 = GOLD
  /\ handle_player_move s 0 (-1) = collect_gold (with_player (mkPlayer 12 9 0) s)
  /\ player (handle_player_move s 0 (-1)) = mkPlayer 12 9 1.
Proof.
  intros s.
  assert (Hd : (0 <> 0 /\ -1 = 0) \/ (0 = 0 /\ -1 <> 0))
    by (right; split; [reflexivity|discriminate]).
  assert (Hp : player s = mkPlayer 12 10 0) by (vm_compute; reflexivity).
  assert (Ht : tile s 12 9 = GOLD) by (vm_compute; reflexivity).
  pose proof (handle_player_move_outcome s 0 (-1) Hd) as E.
  assert (E0 : (if won s || dead s || (countdown s >? 0) then s
                else if is_walkable (tile s (px (player s) + 0) (py (player s) + -1))
                     then collect_gold
                            (with_player
                               (mkPlayer (px (player s) + 0) (py (player s) + -1)
                                  (gold (player s))) s)
                     else s)
               = collect_gold (with_player (mkPlayer 12 9 0) s))
    by (vm_compute; reflexivity).
  assert (E1 : handle_player_move s 0 (-1) = collect_gold (with_player (mkPlayer 12 9 0) s))
    by (rewrite E; exact E0).
  assert (E2 : player (collect_gold (with_player (mkPlayer 12 9 0) s)) = mkPlayer 12 9 1)
    by (vm_compute; reflexivity).
  assert (E3 : player (handle_player_move s 0 (-1)) = mkPlayer 12 9 1)
    by (rewrite E1; exact E2).
  exact (conj Hd (conj Hp (conj Ht (conj E1 E3)))).
Defined.

Lemma game_over_is_final_witness :
  let s := run reset (walk_into_enemy ++ [Tick]) in
  (Tick <> Reset /\ (won s = true \/ dead s = true))
  /\ won (apply_event s Tick) = won s
  /\ dead (apply_event s Tick) = dead s
  /\ player (apply_event s Tick) = player s
  /\ enemy_frame_counter (apply_event s Tick) = enemy_frame_counter s.
Proof.
  intros s.
  assert (Hev : Tick <> Reset) by discriminate.
  assert (Hd : dead s = true) by (vm_compute; reflexivity).
  exact (conj (conj Hev (or_intror Hd)) (game_over_is_final s Tick Hev (or_intror Hd))).
Defined.

Lemma countdown_after_ticks_witness :
  0 <= countdown reset
  /\ countdown (Nat.iter 120 step reset) = Z.max 0 (countdown reset - Z.of_nat 120)
  /\ countdown (Nat.iter 400 step reset) = Z.max 0 (countdown reset - Z.of_nat 400).
Proof.
  assert (H : 0 <= countdown reset) by (vm_compute; intros E; discriminate E).
  exact (conj H (conj (proj1 (countdown_after_ticks reset 120 H))
                      (proj1 (countdown_after_ticks reset 400 H)))).
Defined.

Lemma enemy_cadence_counter_witness :
  let s := run reset (ticks 304) in
  let s' := run reset (ticks 308) in
  (0 <= enemy_frame_counter s < ENEMY_MOVE_INTERVAL
   /\ enemy_frame_counter s + 1 < ENEMY_MOVE_INTERVAL
   /\ 0 <= enemy_frame_counter s' < ENEMY_MOVE_INTERVAL)
  /\ enemies (step s) = enemies (before_entities s)
  /\ enemy_frame_counter s' = 9
  /\ enemy_frame_counter (step s') =
     (if won s' || dead s' || (countdown s' >? 1) then enemy_frame_counter s'
      else (enemy_frame_counter s' + 1) mod ENEMY_MOVE_INTERVAL).
Proof.
  intros s s'.
  assert (H1 : 0 <= enemy_frame_counter s < ENEMY_MOVE_INTERVAL)
    by (vm_compute; split; [intros E; discriminate E|reflexivity]).
  assert (H2 : enemy_frame_counter s + 1 < ENEMY_MOVE_INTERVAL) by (vm_compute; reflexivity).
  assert (H3 : 0 <= enemy_frame_counter s' < ENEMY_MOVE_INTERVAL)
    by (vm_compute; split; [intros E; discriminate E|reflexivity]).
  assert (H4 : enemy_frame_counter s' = 9) by (vm_compute; reflexivity).
  exact (conj (conj H1 (conj H2 H3))
          (conj (proj2 (proj2 (enemy_cadence_counter s H1)) H2)
             (conj H4 (proj1 (proj2 (enemy_cadence_counter s' H3)))))).
Defined.

Lemma level_tiles_persist_witness :
  let s := run reset winning_route in
  reachable s /\ tile0 12 9 = GOLD /\ tile s 12 9 <> tile0 12 9
  /\ tile s 12 9 = EMPTY /\ 0 <= tile s 12 9 <= 5.
Proof.
  intros s.
  assert (Hs : reachable s) by (apply reachable_run, reach_reset).
  assert (H0 : tile0 12 9 = GOLD) by (vm_compute; reflexivity).
  assert (Hne : tile s 12 9 <> tile0 12 9) by (vm_compute; intros E; discriminate E).
  pose proof (level_tiles_persist s Hs 12 9) as (H1 & _ & _ & _ & _ & H6).
  exact (conj Hs (conj H0 (conj Hne (conj (H6 Hne) H1)))).
Defined.

Lemma hole_timers_bounded_witness :
  let s := run reset below_floor in
  let h := mkHole 10 16 239 in
  (reachable s /\ In h (holes s))
  /\ 0 < timer h <= HOLE_REGEN_FRAMES
  /\ (forall h', In h' (holes (step s)) -> exists h0,
        In h0 (holes s) /\ hx h' = hx h0 /\ hy h' = hy h0 /\ timer h' = timer h0 - 1).
Proof.
  intros s h.
  assert (Hs : reachable s) by (apply reachable_run, reach_reset).
  assert (Hin : In h (holes s)) by (vm_compute; left; reflexivity).
  exact (conj (conj Hs Hin) (hole_timers_bounded s h Hs Hin)).
Defined.

Lemma dig_twice_witness :
  let s := run reset (ticks 300) in
  (rect (grid s)
   /\ (in_bounds (grid s) (px (player s) + -1) (py (player s) + 1) = true
       \/ dig_ok s (-1) = false))
  /\ holes (dig s (-1)) = [mkHole 10 16 240]
  /\ dig (dig s (-1)) (-1) = dig s (-1).
Proof.
  intros s.
  assert (Hr : rect (grid s)) by (unfold rect; vm_compute; repeat constructor).
  assert (Hb : in_bounds (grid s) (px (player s) + -1) (py (player s) + 1) = true)
    by (vm_compute; reflexivity).
  assert (Hh : holes (dig s (-1)) = [mkHole 10 16 240]) by (vm_compute; reflexivity).
  exact (conj (conj Hr (or_introl Hb)) (conj Hh (dig_twice s (-1) Hr (or_introl Hb)))).
Defined.

Lemma single_enemy_witness :
  let s := run reset (ticks 410) in
  reachable s /\ enemies s = [mkEnemy 12 15 (17, 9)]
  /\ exists e,
       enemies s = [e] /\ respawn e = (17, 9)
       /\ in_bounds (grid s) (ex e) (ey e) = true
       /\ is_walkable (tile s (ex e) (ey e)) = true
       /\ (ex e, ey e) <> exit_pos s.
Proof.
  intros s.
  assert (Hs : reachable s) by (apply reachable_run, reach_reset).
  assert (He : enemies s = [mkEnemy 12 15 (17, 9)]) by (vm_compute; reflexivity).
  exact (conj Hs (conj He (single_enemy s Hs))).
Defined.
